(** * erizo media definitions: packets, sinks and sources

    A shallow embedding of [erizo/src/erizo/MediaDefinitions.h]: the
    [dataPacket] struct with its constructors and layer queries, the
    [Monitor] mutex mixin, and the [FeedbackSink], [FeedbackSource],
    [MediaSink] and [MediaSource] classes.

    Conventions.
    - C++ integers are [Z]; the only conversion the header performs
      (int to size_t, at the call of memcpy) is written out.
    - A pointer is an optional address, [nullptr] being [None].
    - Methods are computations in a small monad [M S] over the object
      state [S]: they may have no defined result ([None]: undefined
      behaviour, or a lock that is never obtained) and they log the mutex
      operations and field accesses they perform.
    - Pure virtual members are fields of a type class. *)

From Stdlib Require Import ZArith Lia List Bool Strings.Byte.
From stdpp Require Import base tactics option list numbers.
Import ListNotations.
Local Open Scope Z_scope.

(** ** Scalars and pointers *)

Definition int : Type := Z.
Definition uint32_t : Type := Z.
Definition uint64_t : Type := Z.

(** Conversion of an [int] argument to the [size_t] parameter of memcpy
    (64-bit size_t): reduction modulo 2^64. *)
Definition size_t_of_int (n : int) : Z := n mod 2 ^ 64.

Definition pointer : Type := option N.
Abbreviation nullptr := (@None N) (only parsing).

(** ** <algorithm> *)

(** [std::find_if(first, last, pred)]: the position of the first element
    satisfying [pred]; the position [length l] is the [end()] iterator. *)
Fixpoint find_if {A : Type} (pred : A → bool) (l : list A) : nat :=
  match l with
  | [] => 0%nat
  | x :: l' => if pred x then 0%nat else S (find_if pred l')
  end.

(** [std::find(first, last, value)]. *)
Definition find (l : list Z) (value : Z) : nat :=
  find_if (λ x, bool_decide (x = value)) l.

(** ** dataPacket *)

Inductive packetType : Type :=
  | VIDEO_PACKET
  | AUDIO_PACKET
  | OTHER_PACKET.

Module DataPacket.

(** [char data[1500]]. *)
Definition capacity : nat := 1500.

(** A cell of the array is [None] while its value is indeterminate (the
    constructors do not initialise the array) and [Some b] once a byte
    has been stored in it. *)
Record dataPacket : Type := mk {
  comp : int;
  data : list (option byte);
  length : int;
  type : packetType;
  received_time_ms : uint64_t;
  compatible_spatial_layers : list int;
  compatible_temporal_layers : list int;
  is_keyframe : bool
}.

(** The array as the constructors find it. *)
Definition fresh_data : list (option byte) := replicate capacity None.

(** [memcpy(dst, src, n)] into an array [dst] from the bytes [src]
    readable at the source pointer. The count is a size_t. Writing past
    the destination or reading past the source is undefined. *)
Definition memcpy (dst : list (option byte)) (src : list byte) (n : Z)
  : option (list (option byte)) :=
  if (n <=? Z.of_nat (Datatypes.length dst)) && (n <=? Z.of_nat (Datatypes.length src))
  then Some ((Some <$> take (Z.to_nat n) src) ++ drop (Z.to_nat n) dst)
  else None.

Section Constructors.
(** [lib/Clock.h] and [lib/ClockUtils.h] are not part of the header:
    the clock's time points and [ClockUtils::timePointToMs] are taken
    as given, and a constructor that calls [clock::now()] receives the
    time point that call returns. *)
Context {time_point : Type} (timePointToMs : time_point → uint64_t).

(** [dataPacket(int, const char*, int, packetType, uint64_t)] *)
Definition dataPacket5 (comp_ : int) (data_ : list byte) (length_ : int)
    (type_ : packetType) (received_time_ms_ : uint64_t) : option dataPacket :=
  data' ← memcpy fresh_data data_ (size_t_of_int length_);
  Some (mk comp_ data' length_ type_ received_time_ms_ [] [] false).

(** [dataPacket(int, const char*, int, packetType)] *)
Definition dataPacket4 (now : time_point) (comp_ : int) (data_ : list byte)
    (length_ : int) (type_ : packetType) : option dataPacket :=
  data' ← memcpy fresh_data data_ (size_t_of_int length_);
  Some (mk comp_ data' length_ type_ (timePointToMs now) [] [] false).

(** [dataPacket(int, const unsigned char*, int)] *)
Definition dataPacket3 (now : time_point) (comp_ : int) (data_ : list byte)
    (length_ : int) : option dataPacket :=
  data' ← memcpy fresh_data data_ (size_t_of_int length_);
  Some (mk comp_ data' length_ VIDEO_PACKET (timePointToMs now) [] [] false).
End Constructors.

(** The two queries are non-const member functions: they return their
    result together with the packet as they leave it. *)
Definition belongsToSpatialLayer (spatial_layer_ : int) (this : dataPacket)
  : bool * dataPacket :=
  let item := find (compatible_spatial_layers this) spatial_layer_ in
  (negb (item =? Datatypes.length (compatible_spatial_layers this))%nat, this).

Definition belongsToTemporalLayer (temporal_layer_ : int) (this : dataPacket)
  : bool * dataPacket :=
  let item := find (compatible_temporal_layers this) temporal_layer_ in
  (negb (item =? Datatypes.length (compatible_temporal_layers this))%nat, this).

End DataPacket.

Abbreviation dataPacket := DataPacket.dataPacket.

(** ** Methods as logged, partial, stateful computations *)

(** The member variables of the classes of the header. *)
Inductive Field : Type :=
  | F_fb_sink_
  | F_audio_sink_ssrc_
  | F_video_sink_ssrc_
  | F_sink_fb_source_
  | F_audio_source_ssrc_
  | F_video_source_ssrc_list_
  | F_video_sink_
  | F_audio_sink_
  | F_source_fb_sink_.

(** What a method does to the object besides computing: take or give back
    [monitor_mutex_], read or write a member variable. *)
Inductive Event : Type :=
  | Acquire
  | Release
  | Rd (f : Field)
  | Wr (f : Field).

#[global] Instance Field_eq_dec : EqDecision Field.
Proof. solve_decision. Defined.

#[global] Instance Event_eq_dec : EqDecision Event.
Proof. solve_decision. Defined.

(** A method body run on the object state [s] yields its result, the
    state it leaves and the events in program order, or nothing. *)
Definition M (S A : Type) : Type := S → option (A * S * list Event).

#[global] Instance M_ret {S} : MRet (M S) :=
  λ A a s, Some (a, s, []).

#[global] Instance M_bind {S} : MBind (M S) :=
  λ A B k m s,
    match m s with
    | None => None
    | Some (a, s1, t1) =>
        match k a s1 with
        | None => None
        | Some (b, s2, t2) => Some (b, s2, t1 ++ t2)
        end
    end.

#[global] Instance M_fmap {S} : FMap (M S) :=
  λ A B f m, a ← m; mret (f a).

(** Undefined behaviour. *)
Definition undefined {S A} : M S A := λ _, None.

(** A member variable: its name, how to read it off the object and how to
    store into it. *)
Record member (S A : Type) : Type := Member {
  name : Field;
  get : S → A;
  set : A → S → S
}.
Arguments Member {S A} _ _ _.
Arguments name {S A} _.
Arguments get {S A} _ _.
Arguments set {S A} _ _ _.

Definition read {S A} (x : member S A) : M S A :=
  λ s, Some (get x s, s, [Rd (name x)]).

Definition write {S A} (x : member S A) (a : A) : M S () :=
  λ s, Some ((), set x a s, [Wr (name x)]).

(** ** Monitor *)

(** [class Monitor { protected: boost::mutex monitor_mutex_; }], inherited
    virtually: an object has one mutex whatever the number of its bases
    that derive from [Monitor]. The mutex is [true] while it is held. *)
Class Monitor (S : Type) : Type := {
  monitor_mutex_ : S → bool;
  set_monitor_mutex_ : bool → S → S
}.

Section ScopedLock.
Context {S : Type} `{Monitor S}.

(** [boost::mutex::lock]: on a mutex that is held the call does not
    return (it waits, and on the holder's own thread forever). *)
Definition lock : M S () :=
  λ s, if monitor_mutex_ s then None
       else Some ((), set_monitor_mutex_ true s, [Acquire]).

Definition unlock : M S () :=
  λ s, Some ((), set_monitor_mutex_ false s, [Release]).

(** [{ boost::mutex::scoped_lock lock(monitor_mutex_); body }]: the
    constructor locks, the destructor unlocks when the scope is left,
    after the returned value has been computed. *)
Definition scoped_lock {A} (body : M S A) : M S A :=
  lock;; r ← body; unlock;; mret r.
End ScopedLock.

(** The lock discipline of a log: every access happens while the mutex is
    held, the mutex is taken only when free and given back only when held,
    and it is free at the end. [held] is the status of the mutex before
    the first event. *)
Fixpoint lock_discipline (held : bool) (t : list Event) : bool :=
  match t with
  | [] => negb held
  | Acquire :: t' => negb held && lock_discipline true t'
  | Release :: t' => held && lock_discipline false t'
  | Rd _ :: t' => held && lock_discipline held t'
  | Wr _ :: t' => held && lock_discipline held t'
  end.

Definition guarded (t : list Event) : bool := lock_discipline false t.

(** The member variables a log touches. *)
Definition accessed (t : list Event) : list Field :=
  omap (λ e, match e with Rd f | Wr f => Some f | _ => None end) t.

Definition written (t : list Event) : list Field :=
  omap (λ e, match e with Wr f => Some f | _ => None end) t.

(** ** FeedbackSink *)

(** [std::shared_ptr<dataPacket>]: a handle on a packet that lives
    outside the object. *)
Definition shared_ptr_dataPacket : Type := pointer.

(** The pure virtual [deliverFeedback_] of a class with state [S]. *)
Class FeedbackSink (S : Type) : Type := {
  deliverFeedback_ : shared_ptr_dataPacket → M S int
}.

Definition deliverFeedback {S} `{FeedbackSink S}
    (data_packet : shared_ptr_dataPacket) : M S int :=
  r ← deliverFeedback_ data_packet; mret r.

(** ** FeedbackSource *)

Module FeedbackSource.

Record FeedbackSource : Type := mk {
  fb_sink_ : pointer
}.

Definition m_fb_sink_ : member FeedbackSource pointer :=
  Member F_fb_sink_ fb_sink_ (λ p _, mk p).

(** [FeedbackSource(): fb_sink_{nullptr} {}] *)
Definition new : FeedbackSource := mk nullptr.

Definition setFeedbackSink (sink : pointer) : M FeedbackSource () :=
  write m_fb_sink_ sink.

End FeedbackSource.

(** ** MediaSink *)

(** The pure virtual [deliverAudioData_] and [deliverVideoData_] of a
    class with state [S]; [close] is pure virtual too. *)
Class MediaSinkImpl (S : Type) : Type := {
  deliverAudioData_ : shared_ptr_dataPacket → M S int;
  deliverVideoData_ : shared_ptr_dataPacket → M S int;
  sink_close : M S ()
}.

Definition deliverAudioData {S} `{MediaSinkImpl S}
    (data_packet : shared_ptr_dataPacket) : M S int :=
  r ← deliverAudioData_ data_packet; mret r.

Definition deliverVideoData {S} `{MediaSinkImpl S}
    (data_packet : shared_ptr_dataPacket) : M S int :=
  r ← deliverVideoData_ data_packet; mret r.

Module MediaSink.

Record MediaSink : Type := mk {
  mutex : bool;
  audio_sink_ssrc_ : uint32_t;
  video_sink_ssrc_ : uint32_t;
  sink_fb_source_ : pointer
}.

#[global] Instance monitor : Monitor MediaSink := {
  monitor_mutex_ := mutex;
  set_monitor_mutex_ b s :=
    mk b (audio_sink_ssrc_ s) (video_sink_ssrc_ s) (sink_fb_source_ s)
}.

Definition m_audio_sink_ssrc_ : member MediaSink uint32_t :=
  Member F_audio_sink_ssrc_ audio_sink_ssrc_
    (λ v s, mk (mutex s) v (video_sink_ssrc_ s) (sink_fb_source_ s)).

Definition m_video_sink_ssrc_ : member MediaSink uint32_t :=
  Member F_video_sink_ssrc_ video_sink_ssrc_
    (λ v s, mk (mutex s) (audio_sink_ssrc_ s) v (sink_fb_source_ s)).

Definition m_sink_fb_source_ : member MediaSink pointer :=
  Member F_sink_fb_source_ sink_fb_source_
    (λ v s, mk (mutex s) (audio_sink_ssrc_ s) (video_sink_ssrc_ s) v).

(** [MediaSink() : audio_sink_ssrc_{0}, video_sink_ssrc_{0},
    sink_fb_source_{nullptr} {}]; the mutex is constructed free. *)
Definition new : MediaSink := mk false 0 0 nullptr.

Definition getVideoSinkSSRC : M MediaSink uint32_t :=
  scoped_lock (read m_video_sink_ssrc_).

Definition setVideoSinkSSRC (ssrc : uint32_t) : M MediaSink () :=
  scoped_lock (write m_video_sink_ssrc_ ssrc).

Definition getAudioSinkSSRC : M MediaSink uint32_t :=
  scoped_lock (read m_audio_sink_ssrc_).

Definition setAudioSinkSSRC (ssrc : uint32_t) : M MediaSink () :=
  scoped_lock (write m_audio_sink_ssrc_ ssrc).

Definition isVideoSinkSSRC (ssrc : uint32_t) : M MediaSink bool :=
  v ← read m_video_sink_ssrc_; mret (bool_decide (ssrc = v)).

Definition isAudioSinkSSRC (ssrc : uint32_t) : M MediaSink bool :=
  v ← read m_audio_sink_ssrc_; mret (bool_decide (ssrc = v)).

Definition getFeedbackSource : M MediaSink pointer :=
  scoped_lock (read m_sink_fb_source_).

End MediaSink.

(** ** MediaSource *)

(** [std::vector<T>::operator[]]: undefined outside the vector. *)
Definition vector_at {S A} (v : list A) (i : nat) : M S A :=
  match v !! i with
  | Some a => mret a
  | None => undefined
  end.

Definition vector_assign_at {S A} (v : list A) (i : nat) (a : A) : M S (list A) :=
  if (i <? length v)%nat then mret (<[i:=a]> v) else undefined.

Module MediaSource.

Record MediaSource : Type := mk {
  mutex : bool;
  audio_source_ssrc_ : uint32_t;
  video_source_ssrc_list_ : list uint32_t;
  video_sink_ : pointer;
  audio_sink_ : pointer;
  source_fb_sink_ : pointer
}.

#[global] Instance monitor : Monitor MediaSource := {
  monitor_mutex_ := mutex;
  set_monitor_mutex_ b s :=
    mk b (audio_source_ssrc_ s) (video_source_ssrc_list_ s)
       (video_sink_ s) (audio_sink_ s) (source_fb_sink_ s)
}.

Definition m_audio_source_ssrc_ : member MediaSource uint32_t :=
  Member F_audio_source_ssrc_ audio_source_ssrc_
    (λ v s, mk (mutex s) v (video_source_ssrc_list_ s)
               (video_sink_ s) (audio_sink_ s) (source_fb_sink_ s)).

Definition m_video_source_ssrc_list_ : member MediaSource (list uint32_t) :=
  Member F_video_source_ssrc_list_ video_source_ssrc_list_
    (λ v s, mk (mutex s) (audio_source_ssrc_ s) v
               (video_sink_ s) (audio_sink_ s) (source_fb_sink_ s)).

Definition m_video_sink_ : member MediaSource pointer :=
  Member F_video_sink_ video_sink_
    (λ v s, mk (mutex s) (audio_source_ssrc_ s) (video_source_ssrc_list_ s)
               v (audio_sink_ s) (source_fb_sink_ s)).

Definition m_audio_sink_ : member MediaSource pointer :=
  Member F_audio_sink_ audio_sink_
    (λ v s, mk (mutex s) (audio_source_ssrc_ s) (video_source_ssrc_list_ s)
               (video_sink_ s) v (source_fb_sink_ s)).

Definition m_source_fb_sink_ : member MediaSource pointer :=
  Member F_source_fb_sink_ source_fb_sink_
    (λ v s, mk (mutex s) (audio_source_ssrc_ s) (video_source_ssrc_list_ s)
               (video_sink_ s) (audio_sink_ s) v).

(** [MediaSource() : audio_source_ssrc_{0},
    video_source_ssrc_list_{std::vector<uint32_t>(1, 0)},
    video_sink_{nullptr}, audio_sink_{nullptr}, source_fb_sink_{nullptr} {}];
    the mutex is constructed free. *)
Definition new : MediaSource :=
  mk false 0 (replicate 1 0) nullptr nullptr nullptr.

Definition setAudioSink (audio_sink : pointer) : M MediaSource () :=
  scoped_lock (write m_audio_sink_ audio_sink).

Definition setVideoSink (video_sink : pointer) : M MediaSource () :=
  scoped_lock (write m_video_sink_ video_sink).

Definition getFeedbackSink : M MediaSource pointer :=
  scoped_lock (read m_source_fb_sink_).

Definition getVideoSourceSSRC : M MediaSource uint32_t :=
  scoped_lock (v ← read m_video_source_ssrc_list_; vector_at v 0).

Definition setVideoSourceSSRC (ssrc : uint32_t) : M MediaSource () :=
  scoped_lock (v ← read m_video_source_ssrc_list_;
               v' ← vector_assign_at v 0 ssrc;
               write m_video_source_ssrc_list_ v').

(** The vector is returned by value: the result is a copy. *)
Definition getVideoSourceSSRCList : M MediaSource (list uint32_t) :=
  scoped_lock (read m_video_source_ssrc_list_).

Definition setVideoSourceSSRCList (new_ssrc_list : list uint32_t) : M MediaSource () :=
  scoped_lock (write m_video_source_ssrc_list_ new_ssrc_list).

Definition getAudioSourceSSRC : M MediaSource uint32_t :=
  scoped_lock (read m_audio_source_ssrc_).

Definition setAudioSourceSSRC (ssrc : uint32_t) : M MediaSource () :=
  scoped_lock (write m_audio_source_ssrc_ ssrc).

Definition isVideoSourceSSRC (ssrc : uint32_t) : M MediaSource bool :=
  v ← read m_video_source_ssrc_list_;
  let found_ssrc := find_if (λ known_ssrc, bool_decide (known_ssrc = ssrc)) v in
  mret (negb (found_ssrc =? length v)%nat).

Definition isAudioSourceSSRC (ssrc : uint32_t) : M MediaSource bool :=
  v ← read m_audio_source_ssrc_; mret (bool_decide (v = ssrc)).

End MediaSource.

(** ** The public interface of MediaSource and MediaSink as data *)

(** What a call returns. *)
Inductive Value : Type :=
  | VVoid
  | VUint32 (v : uint32_t)
  | VBool (b : bool)
  | VPointer (p : pointer)
  | VVector (v : list uint32_t).

(** The public member functions of [MediaSource] that the header defines
    ([sendPLI] and [close] are pure virtual). *)
Inductive SourceCall : Type :=
  | SetAudioSink (audio_sink : pointer)
  | SetVideoSink (video_sink : pointer)
  | GetFeedbackSink
  | GetVideoSourceSSRC
  | SetVideoSourceSSRC (ssrc : uint32_t)
  | GetVideoSourceSSRCList
  | SetVideoSourceSSRCList (new_ssrc_list : list uint32_t)
  | GetAudioSourceSSRC
  | SetAudioSourceSSRC (ssrc : uint32_t)
  | IsVideoSourceSSRC (ssrc : uint32_t)
  | IsAudioSourceSSRC (ssrc : uint32_t).

Definition source_call (c : SourceCall) : M MediaSource.MediaSource Value :=
  match c with
  | SetAudioSink p => MediaSource.setAudioSink p;; mret VVoid
  | SetVideoSink p => MediaSource.setVideoSink p;; mret VVoid
  | GetFeedbackSink => VPointer <$> MediaSource.getFeedbackSink
  | GetVideoSourceSSRC => VUint32 <$> MediaSource.getVideoSourceSSRC
  | SetVideoSourceSSRC ssrc => MediaSource.setVideoSourceSSRC ssrc;; mret VVoid
  | GetVideoSourceSSRCList => VVector <$> MediaSource.getVideoSourceSSRCList
  | SetVideoSourceSSRCList l => MediaSource.setVideoSourceSSRCList l;; mret VVoid
  | GetAudioSourceSSRC => VUint32 <$> MediaSource.getAudioSourceSSRC
  | SetAudioSourceSSRC ssrc => MediaSource.setAudioSourceSSRC ssrc;; mret VVoid
  | IsVideoSourceSSRC ssrc => VBool <$> MediaSource.isVideoSourceSSRC ssrc
  | IsAudioSourceSSRC ssrc => VBool <$> MediaSource.isAudioSourceSSRC ssrc
  end.

(** The [get...] and [set...] members, as opposed to the [is...] tests. *)
Definition source_accessor (c : SourceCall) : bool :=
  match c with
  | IsVideoSourceSSRC _ | IsAudioSourceSSRC _ => false
  | _ => true
  end.

(** A sequence of calls, one after the other, results dropped. *)
Fixpoint source_calls (cs : list SourceCall) : M MediaSource.MediaSource () :=
  match cs with
  | [] => mret ()
  | c :: cs' => source_call c;; source_calls cs'
  end.

(** The public member functions of [MediaSink] whose behaviour the
    header fixes: the [get...], [set...] and [is...]. The public
    [deliverAudioData], [deliverVideoData] and [close], whose behaviour is
    that of the overriding class, are added in [SinkPublicCall] below. *)
Inductive SinkCall : Type :=
  | GetVideoSinkSSRC
  | SetVideoSinkSSRC (ssrc : uint32_t)
  | GetAudioSinkSSRC
  | SetAudioSinkSSRC (ssrc : uint32_t)
  | IsVideoSinkSSRC (ssrc : uint32_t)
  | IsAudioSinkSSRC (ssrc : uint32_t)
  | GetFeedbackSource.

Definition sink_call (c : SinkCall) : M MediaSink.MediaSink Value :=
  match c with
  | GetVideoSinkSSRC => VUint32 <$> MediaSink.getVideoSinkSSRC
  | SetVideoSinkSSRC ssrc => MediaSink.setVideoSinkSSRC ssrc;; mret VVoid
  | GetAudioSinkSSRC => VUint32 <$> MediaSink.getAudioSinkSSRC
  | SetAudioSinkSSRC ssrc => MediaSink.setAudioSinkSSRC ssrc;; mret VVoid
  | IsVideoSinkSSRC ssrc => VBool <$> MediaSink.isVideoSinkSSRC ssrc
  | IsAudioSinkSSRC ssrc => VBool <$> MediaSink.isAudioSinkSSRC ssrc
  | GetFeedbackSource => VPointer <$> MediaSink.getFeedbackSource
  end.

Definition sink_accessor (c : SinkCall) : bool :=
  match c with
  | IsVideoSinkSSRC _ | IsAudioSinkSSRC _ => false
  | _ => true
  end.

(** The value a run returns, if it returns. *)
Definition returned {S A} (r : option (A * S * list Event)) : option A :=
  match r with
  | Some (a, _, _) => Some a
  | None => None
  end.

(** The invariant of [video_source_ssrc_list_]: it has a slot 0. *)
Definition has_primary_slot (s : MediaSource.MediaSource) : Prop :=
  MediaSource.video_source_ssrc_list_ s ≠ [].

(** Every public member function of [MediaSink]: those of [SinkCall],
    the two delivery functions, which forward to the private virtual
    functions of the class, and the pure virtual [close]. *)
Inductive SinkPublicCall : Type :=
  | OwnCall (c : SinkCall)
  | DeliverAudioData (data_packet : shared_ptr_dataPacket)
  | DeliverVideoData (data_packet : shared_ptr_dataPacket)
  | Close.

Definition public_accessor (c : SinkPublicCall) : bool :=
  match c with
  | OwnCall c => sink_accessor c
  | _ => false
  end.

Section SinkPublic.
(** The class's overrides; they act on the member variables of the
    [MediaSink] base, which are protected. *)
Context {impl : MediaSinkImpl MediaSink.MediaSink}.

Definition sink_public_call (c : SinkPublicCall) : M MediaSink.MediaSink () :=
  match c with
  | OwnCall c => sink_call c;; mret ()
  | DeliverAudioData data_packet => deliverAudioData data_packet;; mret ()
  | DeliverVideoData data_packet => deliverVideoData data_packet;; mret ()
  | Close => sink_close
  end.

(** A sequence of public calls on a sink, one after the other. *)
Fixpoint sink_public_calls (cs : list SinkPublicCall) : M MediaSink.MediaSink () :=
  match cs with
  | [] => mret ()
  | c :: cs' => sink_public_call c;; sink_public_calls cs'
  end.
End SinkPublic.

(** ** Vectors as objects: the source and the code that calls it *)











(** The three constructors of [dataPacket] as functions of the buffer,
    the other arguments being fixed. *)
Definition constructors {time_point : Type}
    (timePointToMs : time_point → uint64_t) (now : time_point)
    (comp_ : int) (length_ : int) (type_ : packetType)
    (received_time_ms_ : uint64_t) : list (list byte → option dataPacket) :=
  [ (λ d, DataPacket.dataPacket5 comp_ d length_ type_ received_time_ms_);
    (λ d, DataPacket.dataPacket4 timePointToMs now comp_ d length_ type_);
    (λ d, DataPacket.dataPacket3 timePointToMs now comp_ d length_) ].

(** The member functions that only read: the [get...] and the [is...]. *)
Definition source_reader (c : SourceCall) : bool :=
  match c with
  | GetFeedbackSink | GetVideoSourceSSRC | GetVideoSourceSSRCList
  | GetAudioSourceSSRC | IsVideoSourceSSRC _ | IsAudioSourceSSRC _ => true
  | _ => false
  end.

Definition sink_reader (c : SinkCall) : bool :=
  match c with
  | GetVideoSinkSSRC | GetAudioSinkSSRC | IsVideoSinkSSRC _
  | IsAudioSinkSSRC _ | GetFeedbackSource => true
  | _ => false
  end.

(** * Properties *)

(** ** find_if *)

Lemma find_if_le {A} (pred : A → bool) (l : list A) :
  (find_if pred l ≤ length l)%nat.
Proof.
  induction l as [|x l IH]; simpl; [lia|].
  destruct (pred x); lia.
Qed.

Lemma find_if_end {A} (pred : A → bool) (l : list A) :
  find_if pred l = length l ↔ ∀ x, In x l → pred x = false.
Proof.
  induction l as [|x l IH]; simpl.
  - split; [intros _ y []|reflexivity].
  - destruct (pred x) eqn:Hx.
    + split; [discriminate|].
      intros Hall. rewrite (Hall x) in Hx by auto. discriminate.
    + split.
      * intros Hlen y [<-|Hy]; [assumption|].
        apply IH; [congruence|assumption].
      * intros Hall. f_equal. apply IH. auto.
Qed.

Lemma find_if_found {A} (pred : A → bool) (l : list A) :
  negb (find_if pred l =? length l)%nat = true ↔ ∃ x, In x l ∧ pred x = true.
Proof.
  rewrite negb_true_iff, Nat.eqb_neq, find_if_end.
  split.
  - intros Hnot. induction l as [|x l IH].
    + exfalso. apply Hnot. intros y [].
    + destruct (pred x) eqn:Hx.
      * exists x. simpl. auto.
      * destruct IH as (y & Hy & Hp).
        -- intros Hall. apply Hnot. intros y [<-|Hy]; auto.
        -- exists y. simpl. auto.
  - intros (x & Hx & Hp) Hall. rewrite (Hall x Hx) in Hp. discriminate.
Qed.

Lemma find_member (l : list Z) (value : Z) :
  negb (find l value =? length l)%nat = true ↔ In value l.
Proof.
  unfold find. rewrite find_if_found. split.
  - intros (x & Hx & Hp). apply bool_decide_eq_true in Hp. congruence.
  - intros Hin. exists value. split; [assumption|].
    apply bool_decide_eq_true. reflexivity.
Qed.

(** ** dataPacket: layer queries *)

(** C3. [belongsToSpatialLayer index] answers true exactly when [index]
    is an element of [compatible_spatial_layers], and
    [belongsToTemporalLayer index] exactly when it is an element of
    [compatible_temporal_layers]; with an empty vector the answer is
    false for every index; neither call changes the packet. *)
Theorem belongsToLayer_member (p : dataPacket) (index : int) :
  (fst (DataPacket.belongsToSpatialLayer index p) = true
     ↔ In index (DataPacket.compatible_spatial_layers p))
  ∧ (fst (DataPacket.belongsToTemporalLayer index p) = true
     ↔ In index (DataPacket.compatible_temporal_layers p))
  ∧ (DataPacket.compatible_spatial_layers p = [] →
     fst (DataPacket.belongsToSpatialLayer index p) = false)
  ∧ (DataPacket.compatible_temporal_layers p = [] →
     fst (DataPacket.belongsToTemporalLayer index p) = false)
  ∧ snd (DataPacket.belongsToSpatialLayer index p) = p
  ∧ snd (DataPacket.belongsToTemporalLayer index p) = p.
Proof.
  unfold DataPacket.belongsToSpatialLayer, DataPacket.belongsToTemporalLayer.
  cbn [fst snd].
  repeat split; try apply find_member.
  - intros ->. reflexivity.
  - intros ->. reflexivity.
Qed.

Lemma belongsToLayer_member_witness :
  let p := DataPacket.mk 1 DataPacket.fresh_data 0 VIDEO_PACKET 0 [] [] false in
  fst (DataPacket.belongsToSpatialLayer 0 p) = false
  ∧ fst (DataPacket.belongsToTemporalLayer 0 p) = false.
Proof.
  intros p.
  pose proof (belongsToLayer_member p 0) as (_ & _ & Hs & Ht & _).
  split; [apply Hs|apply Ht]; reflexivity.
Defined.

(** The scenario of the packet with layers 0 and 1. *)
Example belongsToLayer_scenario :
  let p := DataPacket.mk 1 DataPacket.fresh_data 200 VIDEO_PACKET 0 [0; 1] [0; 1] false in
  fst (DataPacket.belongsToSpatialLayer 0 p) = true
  ∧ fst (DataPacket.belongsToSpatialLayer 2 p) = false
  ∧ fst (DataPacket.belongsToTemporalLayer 1 p) = true
  ∧ fst (DataPacket.belongsToTemporalLayer 2 p) = false.
Proof. cbv zeta. repeat split. Qed.

(** ** MediaSource: stream identifier tests *)

(** C6. [isVideoSourceSSRC id] answers true exactly when [id] occurs in
    [video_source_ssrc_list_], whatever its position, and
    [isAudioSourceSSRC id] exactly when [id] is [audio_source_ssrc_];
    both return on every object, leave it unchanged and take no lock.
    On the list 111, 222 the video test accepts 222 and rejects 333. *)
Theorem isSourceSSRC_member (s : MediaSource.MediaSource) (id : uint32_t) :
  (∃ b, MediaSource.isVideoSourceSSRC id s
          = Some (b, s, [Rd F_video_source_ssrc_list_])
        ∧ (b = true ↔ In id (MediaSource.video_source_ssrc_list_ s)))
  ∧ (∃ b, MediaSource.isAudioSourceSSRC id s
            = Some (b, s, [Rd F_audio_source_ssrc_])
          ∧ (b = true ↔ id = MediaSource.audio_source_ssrc_ s))
  ∧ (MediaSource.video_source_ssrc_list_ s = [111; 222] →
     returned (MediaSource.isVideoSourceSSRC 222 s) = Some true
     ∧ returned (MediaSource.isVideoSourceSSRC 333 s) = Some false).
Proof.
  split; [|split].
  - eexists. split; [reflexivity|].
    cbn [get MediaSource.m_video_source_ssrc_list_].
    rewrite find_if_found. split.
    + intros (x & Hx & Hp). apply bool_decide_eq_true in Hp. congruence.
    + intros Hin. exists id. split; [assumption|].
      apply bool_decide_eq_true. reflexivity.
  - eexists. split; [reflexivity|].
    cbn [get MediaSource.m_audio_source_ssrc_].
    rewrite bool_decide_eq_true. split; congruence.
  - intros Hl. destruct s. cbn in Hl. subst. split; reflexivity.
Qed.

Lemma isSourceSSRC_member_witness :
  let s := MediaSource.mk false 7 [111; 222] None None None in
  returned (MediaSource.isVideoSourceSSRC 222 s) = Some true
  ∧ returned (MediaSource.isVideoSourceSSRC 333 s) = Some false.
Proof.
  intros s.
  apply (proj2 (proj2 (isSourceSSRC_member s 0))). reflexivity.
Defined.

(** ** Freshly constructed objects *)

(** C10. On a freshly constructed [MediaSink], [getAudioSinkSSRC] and
    [getVideoSinkSSRC] return 0 and [getFeedbackSource] returns the null
    pointer; on a freshly constructed [MediaSource], [getAudioSourceSSRC]
    and [getVideoSourceSSRC] return 0, [getFeedbackSink] returns the null
    pointer, and [video_sink_] and [audio_sink_] are null. *)
Theorem fresh_objects :
  returned (MediaSink.getAudioSinkSSRC MediaSink.new) = Some 0
  ∧ returned (MediaSink.getVideoSinkSSRC MediaSink.new) = Some 0
  ∧ returned (MediaSink.getFeedbackSource MediaSink.new) = Some nullptr
  ∧ returned (MediaSource.getAudioSourceSSRC MediaSource.new) = Some 0
  ∧ returned (MediaSource.getVideoSourceSSRC MediaSource.new) = Some 0
  ∧ returned (MediaSource.getFeedbackSink MediaSource.new) = Some nullptr
  ∧ MediaSource.video_sink_ MediaSource.new = nullptr
  ∧ MediaSource.audio_sink_ MediaSource.new = nullptr.
Proof. repeat split. Qed.

(** ** dataPacket: construction *)

Lemma size_t_of_int_small (n : int) :
  0 ≤ n ≤ Z.of_nat DataPacket.capacity → size_t_of_int n = n.
Proof.
  intros Hn. unfold size_t_of_int. apply Z.mod_small.
  unfold DataPacket.capacity in Hn. lia.
Qed.

Lemma memcpy_fresh (data_ : list byte) (n : Z) :
  0 ≤ n ≤ Z.of_nat DataPacket.capacity →
  n ≤ Z.of_nat (length data_) →
  ∃ data', DataPacket.memcpy DataPacket.fresh_data data_ n = Some data'
    ∧ length data' = DataPacket.capacity
    ∧ take (Z.to_nat n) data' = Some <$> take (Z.to_nat n) data_.
Proof.
  intros Hn Hsrc. unfold DataPacket.memcpy, DataPacket.fresh_data.
  rewrite length_replicate.
  assert (Hc : (n <=? Z.of_nat DataPacket.capacity) && (n <=? Z.of_nat (length data_)) = true).
  { apply andb_true_iff. split; apply Z.leb_le; lia. }
  rewrite Hc. eexists. split; [reflexivity|].
  assert (Hlen : length (Some <$> take (Z.to_nat n) data_) = Z.to_nat n).
  { rewrite length_fmap, length_take. lia. }
  split.
  - rewrite length_app, Hlen, length_drop, length_replicate. lia.
  - rewrite take_app_length'; [reflexivity|]. symmetry. exact Hlen.
Qed.

Lemma memcpy_prefix (dst : list (option byte)) (data_ data_' : list byte) (n : Z) :
  0 ≤ n →
  take (Z.to_nat n) data_' = take (Z.to_nat n) data_ →
  n ≤ Z.of_nat (length data_) →
  DataPacket.memcpy dst data_' n = DataPacket.memcpy dst data_ n.
Proof.
  intros Hn Htake Hsrc. unfold DataPacket.memcpy. rewrite Htake.
  assert (Hlen : n ≤ Z.of_nat (length data_')).
  { apply (f_equal length) in Htake. rewrite !length_take in Htake. lia. }
  replace (n <=? Z.of_nat (length data_')) with (n <=? Z.of_nat (length data_)); [reflexivity|].
  transitivity true; [|symmetry]; apply Z.leb_le; assumption.
Qed.

(** C2. Each of the three constructors, given a length between 0 and the
    capacity 1500 and a buffer that holds at least that many bytes,
    builds a packet whose [length] is the given length and whose first
    [length] payload bytes are the first [length] bytes of the buffer, in
    order. The bytes are stored in the packet's own array of 1500 cells:
    the packet built is the same for every buffer with the same first
    [length] bytes, so nothing of the caller's buffer beyond the copied
    bytes is part of it. *)
Theorem dataPacket_copies_buffer {time_point : Type}
    (timePointToMs : time_point → uint64_t) (now : time_point)
    (comp_ : int) (data_ : list byte) (length_ : int)
    (type_ : packetType) (received_time_ms_ : uint64_t) :
  0 ≤ length_ ≤ 1500 →
  length_ ≤ Z.of_nat (length data_) →
  ∀ construct : list byte → option dataPacket,
    In construct
      [ (λ d, DataPacket.dataPacket5 comp_ d length_ type_ received_time_ms_);
        (λ d, DataPacket.dataPacket4 timePointToMs now comp_ d length_ type_);
        (λ d, DataPacket.dataPacket3 timePointToMs now comp_ d length_) ] →
    (∃ p, construct data_ = Some p
        ∧ DataPacket.length p = length_
        ∧ length (DataPacket.data p) = 1500%nat
        ∧ take (Z.to_nat length_) (DataPacket.data p)
          = Some <$> take (Z.to_nat length_) data_)
    ∧ (∀ data_' : list byte,
         take (Z.to_nat length_) data_' = take (Z.to_nat length_) data_ →
         construct data_' = construct data_).
Proof.
  intros Hn Hsrc construct Hin.
  assert (Hcap : 0 ≤ length_ ≤ Z.of_nat DataPacket.capacity).
  { unfold DataPacket.capacity. lia. }
  destruct (memcpy_fresh data_ length_ Hcap Hsrc) as (data' & Hcpy & Hlen & Htake).
  assert (Hsame : ∀ data_', take (Z.to_nat length_) data_' = take (Z.to_nat length_) data_ →
            DataPacket.memcpy DataPacket.fresh_data data_' (size_t_of_int length_)
            = Some data').
  { intros data_' Heq. rewrite size_t_of_int_small by exact Hcap.
    rewrite (memcpy_prefix _ data_ data_') by (assumption || lia). exact Hcpy. }
  pose proof (Hsame data_ eq_refl) as Hhere.
  destruct Hin as [<-|[<-|[<-|[]]]];
    unfold DataPacket.dataPacket5, DataPacket.dataPacket4, DataPacket.dataPacket3;
    (split;
     [ rewrite Hhere; eexists; split; [reflexivity|]; cbn; auto
     | intros data_' Heq; rewrite (Hsame data_' Heq), Hhere; reflexivity ]).
Qed.

Lemma dataPacket_copies_buffer_witness :
  ∃ p, DataPacket.dataPacket3 (λ t : Z, t) 42 1 [x10; x20; x30] 2 = Some p
     ∧ DataPacket.length p = 2
     ∧ length (DataPacket.data p) = 1500%nat
     ∧ take (Z.to_nat 2) (DataPacket.data p) = Some <$> take (Z.to_nat 2) [x10; x20; x30].
Proof.
  apply (dataPacket_copies_buffer (λ t : Z, t) 42 1 [x10; x20; x30] 2 VIDEO_PACKET 0
           ltac:(lia) ltac:(simpl; lia)
           (λ d, DataPacket.dataPacket3 (λ t : Z, t) 42 1 d 2)).
  right. right. left. reflexivity.
Defined.

(** A negative length is a huge size_t: the copy is undefined. *)
Example dataPacket_negative_length :
  DataPacket.dataPacket5 1 [x10; x20; x30] (-1) AUDIO_PACKET 0 = None.
Proof. reflexivity. Qed.

(** So is a length beyond the capacity. *)
Example dataPacket_oversized :
  DataPacket.dataPacket5 1 (replicate 1501 x00) 1501 AUDIO_PACKET 0 = None.
Proof. vm_compute. reflexivity. Qed.

(** C9. The constructor taking a component, a buffer of unsigned bytes
    and a length builds (for a length within the capacity and the buffer)
    a packet of type [VIDEO_PACKET], whose [received_time_ms] is the
    clock's current time in milliseconds, whose [is_keyframe] is false and
    whose two layer vectors are empty. *)
Theorem dataPacket3_defaults {time_point : Type}
    (timePointToMs : time_point → uint64_t) (now : time_point)
    (comp_ : int) (data_ : list byte) (length_ : int) :
  0 ≤ length_ ≤ 1500 →
  length_ ≤ Z.of_nat (length data_) →
  ∃ p, DataPacket.dataPacket3 timePointToMs now comp_ data_ length_ = Some p
     ∧ DataPacket.comp p = comp_
     ∧ DataPacket.type p = VIDEO_PACKET
     ∧ DataPacket.received_time_ms p = timePointToMs now
     ∧ DataPacket.is_keyframe p = false
     ∧ DataPacket.compatible_spatial_layers p = []
     ∧ DataPacket.compatible_temporal_layers p = [].
Proof.
  intros Hn Hsrc.
  assert (Hcap : 0 ≤ length_ ≤ Z.of_nat DataPacket.capacity).
  { unfold DataPacket.capacity. lia. }
  destruct (memcpy_fresh data_ length_ Hcap Hsrc) as (data' & Hcpy & _).
  unfold DataPacket.dataPacket3.
  rewrite size_t_of_int_small by exact Hcap. rewrite Hcpy.
  eexists. split; [reflexivity|]. cbn. repeat split.
Qed.

Lemma dataPacket3_defaults_witness :
  ∃ p, DataPacket.dataPacket3 (λ t : Z, t * 1000) 42 1 [x10; x20; x30] 3 = Some p
     ∧ DataPacket.comp p = 1
     ∧ DataPacket.type p = VIDEO_PACKET
     ∧ DataPacket.received_time_ms p = 42000
     ∧ DataPacket.is_keyframe p = false
     ∧ DataPacket.compatible_spatial_layers p = []
     ∧ DataPacket.compatible_temporal_layers p = [].
Proof.
  apply (dataPacket3_defaults (λ t : Z, t * 1000) 42 1 [x10; x20; x30] 3).
  - lia.
  - simpl. lia.
Defined.

(** ** The monad *)

Lemma bind_ret_r {S A} (m : M S A) (s : S) :
  (r ← m; mret r) s = m s.
Proof.
  unfold mbind, M_bind, mret, M_ret.
  destruct (m s) as [[[a s1] t1]|]; [|reflexivity].
  rewrite app_nil_r. reflexivity.
Qed.

Lemma bind_run {S A B} (m : M S A) (k : A → M S B) (s s1 : S) (a : A) (t1 : list Event) :
  m s = Some (a, s1, t1) →
  (m ≫= k) s = match k a s1 with
               | None => None
               | Some (b, s2, t2) => Some (b, s2, t1 ++ t2)
               end.
Proof. intros Hm. unfold mbind, M_bind. rewrite Hm. reflexivity. Qed.

Lemma bind_inv {S A B} (m : M S A) (k : A → M S B) (s s2 : S) (b : B) (t : list Event) :
  (m ≫= k) s = Some (b, s2, t) →
  ∃ a s1 t1 t2, m s = Some (a, s1, t1) ∧ k a s1 = Some (b, s2, t2) ∧ t = t1 ++ t2.
Proof.
  unfold mbind, M_bind.
  destruct (m s) as [[[a s1] t1]|]; [|discriminate].
  destruct (k a s1) as [[[b' s2'] t2]|] eqn:Hk; [|discriminate].
  intros [= <- <- <-]. exists a, s1, t1, t2. auto.
Qed.

(** ** MediaSource: the primary video identifier *)

(** C5. On a [MediaSource] whose [video_source_ssrc_list_] is not empty
    (and whose mutex is free, so that the call returns),
    [getVideoSourceSSRC] returns the element at index 0 and leaves the
    object as it was; [setVideoSourceSSRC ssrc] stores [ssrc] at index 0,
    keeps every other element of the vector and its length, and keeps
    every other member variable. *)
Theorem primary_video_ssrc (s : MediaSource.MediaSource) (ssrc : uint32_t) :
  has_primary_slot s →
  MediaSource.mutex s = false →
  (∃ primary t,
      MediaSource.video_source_ssrc_list_ s !! 0%nat = Some primary
      ∧ MediaSource.getVideoSourceSSRC s = Some (primary, s, t))
  ∧ (∃ s' t,
      MediaSource.setVideoSourceSSRC ssrc s = Some ((), s', t)
      ∧ MediaSource.video_source_ssrc_list_ s' !! 0%nat = Some ssrc
      ∧ (∀ i : nat, i ≠ 0%nat →
           MediaSource.video_source_ssrc_list_ s' !! i
           = MediaSource.video_source_ssrc_list_ s !! i)
      ∧ length (MediaSource.video_source_ssrc_list_ s')
        = length (MediaSource.video_source_ssrc_list_ s)
      ∧ MediaSource.audio_source_ssrc_ s' = MediaSource.audio_source_ssrc_ s
      ∧ MediaSource.video_sink_ s' = MediaSource.video_sink_ s
      ∧ MediaSource.audio_sink_ s' = MediaSource.audio_sink_ s
      ∧ MediaSource.source_fb_sink_ s' = MediaSource.source_fb_sink_ s
      ∧ MediaSource.mutex s' = MediaSource.mutex s).
Proof.
  unfold has_primary_slot.
  destruct s as [m a l vs au fb]. cbn. intros Hl ->.
  destruct l as [|primary rest]; [congruence|].
  split.
  - exists primary. eexists. split; reflexivity.
  - do 2 eexists. split; [reflexivity|]. cbn.
    repeat split. intros [|i] Hi; [congruence|reflexivity].
Qed.

Lemma primary_video_ssrc_witness :
  ∃ primary t,
    MediaSource.video_source_ssrc_list_
      (MediaSource.mk false 7 [111; 222] None None None) !! 0%nat = Some primary
    ∧ MediaSource.getVideoSourceSSRC (MediaSource.mk false 7 [111; 222] None None None)
      = Some (primary, MediaSource.mk false 7 [111; 222] None None None, t).
Proof.
  apply (primary_video_ssrc (MediaSource.mk false 7 [111; 222] None None None) 333).
  - unfold has_primary_slot. simpl. discriminate.
  - reflexivity.
Defined.

Example setVideoSourceSSRC_scenario :
  MediaSource.setVideoSourceSSRC 333 (MediaSource.mk false 7 [111; 222] None None None)
  = Some ((), MediaSource.mk false 7 [333; 222] None None None,
          [Acquire; Rd F_video_source_ssrc_list_; Wr F_video_source_ssrc_list_; Release]).
Proof. reflexivity. Qed.

(** Indexing an empty vector is undefined. *)
Example getVideoSourceSSRC_empty :
  MediaSource.getVideoSourceSSRC (MediaSource.mk false 7 [] None None None) = None
  ∧ MediaSource.setVideoSourceSSRC 5 (MediaSource.mk false 7 [] None None None) = None.
Proof. split; reflexivity. Qed.

(** ** MediaSource: the list of video identifiers *)







(** ** MediaSource: the list always has its slot 0, if callers keep it *)

(** C1, as the code has it. The constructor builds the one-element list
    holding 0, so a fresh [MediaSource] has its slot 0. Every public
    member function the header defines returns and keeps the slot when
    called on an object that has it (mutex free), with one proviso: the
    list given to [setVideoSourceSSRCList] must not be empty.
    [setVideoSourceSSRCList] stores the list it is given as it is. *)
Theorem primary_slot_invariant :
  MediaSource.video_source_ssrc_list_ MediaSource.new = [0]
  ∧ has_primary_slot MediaSource.new
  ∧ (∀ (c : SourceCall) (s : MediaSource.MediaSource),
       has_primary_slot s →
       MediaSource.mutex s = false →
       (∀ l, c = SetVideoSourceSSRCList l → l ≠ []) →
       ∃ v s' t, source_call c s = Some (v, s', t)
                 ∧ has_primary_slot s'
                 ∧ MediaSource.mutex s' = false)
  ∧ (∀ (l : list uint32_t) (s : MediaSource.MediaSource),
       MediaSource.mutex s = false →
       ∃ s' t, source_call (SetVideoSourceSSRCList l) s = Some (VVoid, s', t)
               ∧ MediaSource.video_source_ssrc_list_ s' = l).
Proof.
  split; [reflexivity|]. split; [discriminate|]. split.
  - unfold has_primary_slot.
    intros c [m a l vs au fb]. cbn. intros Hl -> Hc.
    destruct l as [|primary rest]; [congruence|].
    destruct c; try (do 3 eexists; split; [reflexivity|]; cbn; split; [discriminate|reflexivity]).
    do 3 eexists. split; [reflexivity|]. cbn. split; [|reflexivity].
    apply Hc. reflexivity.
  - intros l [m a l0 vs au fb]. cbn. intros ->.
    do 2 eexists. split; reflexivity.
Qed.

Lemma primary_slot_invariant_witness :
  ∃ v s' t,
    source_call (SetVideoSourceSSRCList [111; 222]) MediaSource.new = Some (v, s', t)
    ∧ has_primary_slot s'
    ∧ MediaSource.mutex s' = false.
Proof.
  apply (proj1 (proj2 (proj2 primary_slot_invariant))
           (SetVideoSourceSSRCList [111; 222]) MediaSource.new).
  - unfold has_primary_slot. simpl. discriminate.
  - reflexivity.
  - intros l [= <-]. discriminate.
Defined.

(** C1, as stated, fails: a fresh [MediaSource] has its slot 0, and
    [setVideoSourceSSRCList] called on it with the empty list returns and
    leaves it without. *)
Lemma setVideoSourceSSRCList_empty_drops_primary_slot :
  has_primary_slot MediaSource.new
  ∧ MediaSource.mutex MediaSource.new = false
  ∧ ∃ s' t,
      source_call (SetVideoSourceSSRCList []) MediaSource.new = Some (VVoid, s', t)
      ∧ ¬ has_primary_slot s'.
Proof.
  split; [discriminate|]. split; [reflexivity|].
  do 2 eexists. split; [reflexivity|].
  unfold has_primary_slot. cbn. intros H. apply H. reflexivity.
Qed.

(** ** The monitor *)

(** C4, as the code has it. Each [get...] and [set...] member function
    of [MediaSink] and of [MediaSource], called with the mutex free,
    touches member variables only between taking [monitor_mutex_] and
    giving it back, and has given it back whenever it returns; each has
    one way out, its return. All of them return on every object, except
    that [getVideoSourceSSRC] and [setVideoSourceSSRC] are undefined on
    an empty list. Of the member functions of [MediaSource] in the header
    only [setAudioSink] and [setVideoSink] write [audio_sink_] or
    [video_sink_], and they do so holding the mutex; none writes
    [source_fb_sink_]. *)
Theorem accessors_hold_monitor :
  (∀ (c : SinkCall) (s : MediaSink.MediaSink),
     sink_accessor c = true →
     monitor_mutex_ s = false →
     ∃ v s' t, sink_call c s = Some (v, s', t)
               ∧ accessed t ≠ []
               ∧ guarded t = true
               ∧ monitor_mutex_ s' = false)
  ∧ (∀ (c : SourceCall) (s : MediaSource.MediaSource),
       source_accessor c = true →
       monitor_mutex_ s = false →
       match source_call c s with
       | Some (v, s', t) =>
           accessed t ≠ [] ∧ guarded t = true ∧ monitor_mutex_ s' = false
       | None =>
           (c = GetVideoSourceSSRC ∨ ∃ ssrc, c = SetVideoSourceSSRC ssrc)
           ∧ MediaSource.video_source_ssrc_list_ s = []
       end)
  ∧ (∀ (c : SourceCall) (s s' : MediaSource.MediaSource) v t,
       source_call c s = Some (v, s', t) →
       (In F_audio_sink_ (written t) ∨ In F_video_sink_ (written t)) →
       guarded t = true
       ∧ ∃ p, c = SetAudioSink p ∨ c = SetVideoSink p)
  ∧ (∀ (c : SourceCall) (s s' : MediaSource.MediaSource) v t,
       source_call c s = Some (v, s', t) →
       ¬ In F_source_fb_sink_ (written t)).
Proof.
  split; [|split; [|split]].
  - intros c [m a v fb] Hc. cbn. intros ->.
    destruct c; try discriminate Hc;
      (do 3 eexists; split; [reflexivity|]; cbn; repeat split; discriminate).
  - intros c [m a l vs au fb] Hc. cbn. intros ->.
    destruct c, l as [|primary rest]; try discriminate Hc; cbn;
      try (repeat split; discriminate);
      split; eauto.
  - intros c [m a l vs au fb] s' v t Hrun Hw.
    destruct m, c, l as [|primary rest]; cbn in Hrun; try discriminate Hrun;
      injection Hrun as <- <- <-; cbn in Hw |- *;
      try (split; [reflexivity|eauto]);
      exfalso; destruct Hw as [Hw|Hw]; cbn in Hw; intuition discriminate.
  - intros c [m a l vs au fb] s' v t Hrun Hw.
    destruct m, c, l as [|primary rest]; cbn in Hrun; try discriminate Hrun;
      injection Hrun as <- <- <-; cbn in Hw; intuition discriminate.
Qed.

Lemma accessors_hold_monitor_witness :
  (∃ v s' t, sink_call (SetVideoSinkSSRC 111) MediaSink.new = Some (v, s', t)
             ∧ accessed t ≠ []
             ∧ guarded t = true
             ∧ monitor_mutex_ s' = false)
  ∧ (∃ v s' t, source_call (SetVideoSourceSSRCList [1])
                 (MediaSource.mk false 0 [] None None None) = Some (v, s', t)
               ∧ accessed t ≠ []
               ∧ guarded t = true
               ∧ monitor_mutex_ s' = false).
Proof.
  split.
  - apply (proj1 accessors_hold_monitor (SetVideoSinkSSRC 111) MediaSink.new);
      reflexivity.
  - do 3 eexists. split; [reflexivity|].
    exact (proj1 (proj2 accessors_hold_monitor) (SetVideoSourceSSRCList [1])
             (MediaSource.mk false 0 [] None None None) eq_refl eq_refl).
Defined.

(** C4, as stated, fails: [FeedbackSource::setFeedbackSink] is a setter of
    the attached feedback sink, it returns, and it writes [fb_sink_]
    without taking any mutex ([FeedbackSource] does not derive from
    [Monitor]); [MediaSink::isVideoSinkSSRC] reads [video_sink_ssrc_]
    without taking the mutex either. *)
Lemma setFeedbackSink_takes_no_lock :
  (∃ s', FeedbackSource.setFeedbackSink (Some 1%N) FeedbackSource.new
         = Some ((), s', [Wr F_fb_sink_])
         ∧ FeedbackSource.fb_sink_ s' = Some 1%N
         ∧ guarded [Wr F_fb_sink_] = false)
  ∧ (MediaSink.isVideoSinkSSRC 0 MediaSink.new
     = Some (true, MediaSink.new, [Rd F_video_sink_ssrc_])
     ∧ guarded [Rd F_video_sink_ssrc_] = false).
Proof.
  split.
  - eexists. split; [reflexivity|]. split; reflexivity.
  - split; reflexivity.
Qed.

(** ** Delivery *)

(** C8. For every class implementing the private virtual functions, and
    every packet handle and object state, [deliverAudioData],
    [deliverVideoData] and [deliverFeedback] do exactly what
    [deliverAudioData_], [deliverVideoData_] and [deliverFeedback_] do:
    same result (or none), same final state, same events. *)
Theorem deliver_forwards {S : Type} (sink : MediaSinkImpl S) (feedback : FeedbackSink S)
    (data_packet : shared_ptr_dataPacket) (s : S) :
  deliverAudioData data_packet s = deliverAudioData_ data_packet s
  ∧ deliverVideoData data_packet s = deliverVideoData_ data_packet s
  ∧ deliverFeedback data_packet s = deliverFeedback_ data_packet s.
Proof.
  unfold deliverAudioData, deliverVideoData, deliverFeedback.
  repeat split; apply bind_ret_r.
Qed.

(** * Further properties *)

(** ** dataPacket: lengths the constructors cannot take *)

Lemma size_t_of_int_negative (n : int) :
  - 2 ^ 31 ≤ n < 0 → size_t_of_int n = n + 2 ^ 64.
Proof.
  intros Hn. unfold size_t_of_int. symmetry.
  apply (Z.mod_unique n (2 ^ 64) (-1)); lia.
Qed.

Lemma memcpy_undefined (dst : list (option byte)) (data_ : list byte) (n : Z) :
  Z.of_nat (length dst) < n ∨ Z.of_nat (length data_) < n →
  DataPacket.memcpy dst data_ n = None.
Proof.
  intros Hn. unfold DataPacket.memcpy.
  destruct (n <=? Z.of_nat (length dst)) eqn:Hd; [|reflexivity].
  destruct (n <=? Z.of_nat (length data_)) eqn:Hs; [|reflexivity].
  apply Z.leb_le in Hd, Hs. lia.
Qed.

Lemma constructors_memcpy {time_point : Type}
    (timePointToMs : time_point → uint64_t) (now : time_point)
    (comp_ : int) (length_ : int) (type_ : packetType) (received_time_ms_ : uint64_t)
    (construct : list byte → option dataPacket) (data_ : list byte) :
  In construct (constructors timePointToMs now comp_ length_ type_ received_time_ms_) →
  match DataPacket.memcpy DataPacket.fresh_data data_ (size_t_of_int length_) with
  | None => construct data_ = None
  | Some data' =>
      ∃ p, construct data_ = Some p
           ∧ DataPacket.comp p = comp_
           ∧ DataPacket.data p = data'
           ∧ DataPacket.length p = length_
           ∧ DataPacket.is_keyframe p = false
           ∧ DataPacket.compatible_spatial_layers p = []
           ∧ DataPacket.compatible_temporal_layers p = []
  end.
Proof.
  intros [<-|[<-|[<-|[]]]];
    unfold DataPacket.dataPacket5, DataPacket.dataPacket4, DataPacket.dataPacket3;
    destruct (DataPacket.memcpy _ _ _); cbn; eauto 10.
Qed.

(** X1. A length that is negative, greater than 1500, or greater than
    the number of bytes the buffer holds makes each of the three
    constructors undefined: the length goes to memcpy unchecked, a
    negative one as a size_t above 2^63. *)
Theorem dataPacket_rejects_bad_length {time_point : Type}
    (timePointToMs : time_point → uint64_t) (now : time_point)
    (comp_ : int) (data_ : list byte) (length_ : int)
    (type_ : packetType) (received_time_ms_ : uint64_t)
    (construct : list byte → option dataPacket) :
  - 2 ^ 31 ≤ length_ < 2 ^ 31 →
  length_ < 0 ∨ 1500 < length_ ∨ Z.of_nat (length data_) < length_ →
  In construct (constructors timePointToMs now comp_ length_ type_ received_time_ms_) →
  construct data_ = None.
Proof.
  intros Hint Hbad Hin.
  pose proof (constructors_memcpy _ _ _ _ _ _ _ data_ Hin) as Hc.
  rewrite memcpy_undefined in Hc; [exact Hc|].
  unfold DataPacket.fresh_data. rewrite length_replicate.
  unfold DataPacket.capacity.
  destruct (Z.lt_ge_cases length_ 0) as [Hneg|Hpos].
  - rewrite size_t_of_int_negative by lia. lia.
  - unfold size_t_of_int. rewrite Z.mod_small by lia. lia.
Qed.

Lemma dataPacket_rejects_bad_length_witness :
  DataPacket.dataPacket3 (λ t : Z, t) 42 1 [x10; x20; x30] (-1) = None
  ∧ DataPacket.dataPacket5 1 [x10; x20; x30] 4 AUDIO_PACKET 0 = None.
Proof.
  split.
  - apply (dataPacket_rejects_bad_length (λ t : Z, t) 42 1 [x10; x20; x30] (-1)
             VIDEO_PACKET 0
             (λ d, DataPacket.dataPacket3 (λ t : Z, t) 42 1 d (-1))
             ltac:(lia) ltac:(lia)).
    right. right. left. reflexivity.
  - apply (dataPacket_rejects_bad_length (λ t : Z, t) 42 1 [x10; x20; x30] 4
             AUDIO_PACKET 0
             (λ d, DataPacket.dataPacket5 1 d 4 AUDIO_PACKET 0)
             ltac:(lia) ltac:(simpl; lia)).
    left. reflexivity.
Defined.

(** ** dataPacket: the whole array after construction *)

Lemma memcpy_fresh_cells (data_ : list byte) (n : Z) :
  0 ≤ n ≤ Z.of_nat DataPacket.capacity →
  n ≤ Z.of_nat (length data_) →
  ∃ data', DataPacket.memcpy DataPacket.fresh_data data_ n = Some data'
    ∧ ∀ i : nat,
        data' !! i = if decide (Z.of_nat i < n) then Some <$> (data_ !! i)
                     else if decide (i < DataPacket.capacity)%nat then Some None
                     else None.
Proof.
  intros Hn Hsrc. unfold DataPacket.memcpy, DataPacket.fresh_data.
  rewrite length_replicate.
  assert (Hc : (n <=? Z.of_nat DataPacket.capacity) && (n <=? Z.of_nat (length data_)) = true).
  { apply andb_true_iff. split; apply Z.leb_le; lia. }
  rewrite Hc. eexists. split; [reflexivity|].
  assert (Hlen : length (Some <$> take (Z.to_nat n) data_) = Z.to_nat n).
  { rewrite length_fmap, length_take. lia. }
  intros i. rewrite drop_replicate.
  destruct (decide (Z.of_nat i < n)) as [Hi|Hi].
  - rewrite lookup_app_l by lia.
    rewrite list_lookup_fmap. f_equal. apply lookup_take_lt. lia.
  - rewrite lookup_app_r by lia. rewrite Hlen.
    destruct (decide (i < DataPacket.capacity)%nat) as [Hcap|Hcap].
    + apply lookup_replicate_2. lia.
    + apply lookup_ge_None. rewrite length_replicate. lia.
Qed.

(** X2. After a construction within bounds every cell of the packet's
    array is known: cell [i] holds byte [i] of the buffer for [i] below
    the length, is left indeterminate from the length up to 1499 (the
    constructors clear nothing), and there is no cell from 1500 on. *)
Theorem dataPacket_cells {time_point : Type}
    (timePointToMs : time_point → uint64_t) (now : time_point)
    (comp_ : int) (data_ : list byte) (length_ : int)
    (type_ : packetType) (received_time_ms_ : uint64_t)
    (construct : list byte → option dataPacket) :
  0 ≤ length_ ≤ 1500 →
  length_ ≤ Z.of_nat (length data_) →
  In construct (constructors timePointToMs now comp_ length_ type_ received_time_ms_) →
  ∃ p, construct data_ = Some p
     ∧ ∀ i : nat,
         DataPacket.data p !! i
         = if decide (Z.of_nat i < length_) then Some <$> (data_ !! i)
           else if decide (i < 1500)%nat then Some None
           else None.
Proof.
  intros Hn Hsrc Hin.
  assert (Hcap : 0 ≤ length_ ≤ Z.of_nat DataPacket.capacity).
  { unfold DataPacket.capacity. lia. }
  pose proof (constructors_memcpy _ _ _ _ _ _ _ data_ Hin) as Hc.
  rewrite size_t_of_int_small in Hc by exact Hcap.
  destruct (memcpy_fresh_cells data_ length_ Hcap Hsrc) as (data' & Hcpy & Hcells).
  rewrite Hcpy in Hc. destruct Hc as (p & Hp & _ & Hdata & _).
  exists p. split; [exact Hp|]. rewrite Hdata. exact Hcells.
Qed.

Lemma dataPacket_cells_witness :
  ∃ p, DataPacket.dataPacket5 1 [x10; x20; x30] 2 AUDIO_PACKET 0 = Some p
     ∧ ∀ i : nat,
         DataPacket.data p !! i
         = if decide (Z.of_nat i < 2) then Some <$> ([x10; x20; x30] !! i)
           else if decide (i < 1500)%nat then Some None
           else None.
Proof.
  apply (dataPacket_cells (λ t : Z, t) 42 1 [x10; x20; x30] 2 AUDIO_PACKET 0
           (λ d, DataPacket.dataPacket5 1 d 2 AUDIO_PACKET 0)
           ltac:(lia) ltac:(simpl; lia)).
  left. reflexivity.
Defined.

(** X3. A length of 0 is accepted with any buffer, the empty one too:
    nothing is copied and the whole array stays indeterminate. *)
Theorem dataPacket_zero_length {time_point : Type}
    (timePointToMs : time_point → uint64_t) (now : time_point)
    (comp_ : int) (data_ : list byte)
    (type_ : packetType) (received_time_ms_ : uint64_t)
    (construct : list byte → option dataPacket) :
  In construct (constructors timePointToMs now comp_ 0 type_ received_time_ms_) →
  ∃ p, construct data_ = Some p
     ∧ DataPacket.length p = 0
     ∧ DataPacket.data p = replicate 1500 None.
Proof.
  intros Hin.
  pose proof (constructors_memcpy _ _ _ _ _ _ _ data_ Hin) as Hc.
  assert (Hcpy : DataPacket.memcpy DataPacket.fresh_data data_ (size_t_of_int 0)
                 = Some (replicate 1500 None)).
  { unfold DataPacket.memcpy, DataPacket.fresh_data.
    rewrite length_replicate.
    change (size_t_of_int 0) with 0.
    replace (0 <=? Z.of_nat (length data_)) with true by (symmetry; apply Z.leb_le; lia).
    reflexivity. }
  rewrite Hcpy in Hc. destruct Hc as (p & Hp & _ & Hdata & Hlen & _).
  exists p. auto.
Qed.

Lemma dataPacket_zero_length_witness :
  ∃ p, DataPacket.dataPacket4 (λ t : Z, t) 42 1 [] 0 OTHER_PACKET = Some p
     ∧ DataPacket.length p = 0
     ∧ DataPacket.data p = replicate 1500 None.
Proof.
  apply (dataPacket_zero_length (λ t : Z, t) 42 1 [] OTHER_PACKET 0
           (λ d, DataPacket.dataPacket4 (λ t : Z, t) 42 1 d 0 OTHER_PACKET)).
  right. left. reflexivity.
Defined.

(** ** dataPacket: what a new packet carries *)

(** X4. A packet just built by any of the three constructors belongs to
    no spatial and to no temporal layer, whatever the index asked for, and
    is not marked as a keyframe. *)
Theorem new_packet_in_no_layer {time_point : Type}
    (timePointToMs : time_point → uint64_t) (now : time_point)
    (comp_ : int) (data_ : list byte) (length_ : int)
    (type_ : packetType) (received_time_ms_ : uint64_t)
    (construct : list byte → option dataPacket) (p : dataPacket) (index : int) :
  In construct (constructors timePointToMs now comp_ length_ type_ received_time_ms_) →
  construct data_ = Some p →
  fst (DataPacket.belongsToSpatialLayer index p) = false
  ∧ fst (DataPacket.belongsToTemporalLayer index p) = false
  ∧ DataPacket.is_keyframe p = false.
Proof.
  intros Hin Hp.
  pose proof (constructors_memcpy _ _ _ _ _ _ _ data_ Hin) as Hc.
  destruct (DataPacket.memcpy _ _ _); [|congruence].
  destruct Hc as (p' & Hp' & _ & _ & _ & Hkey & Hsp & Htp).
  assert (p' = p) as -> by congruence.
  unfold DataPacket.belongsToSpatialLayer, DataPacket.belongsToTemporalLayer.
  rewrite Hsp, Htp. auto.
Qed.

Lemma new_packet_in_no_layer_witness :
  fst (DataPacket.belongsToSpatialLayer 0
         (DataPacket.mk 1 DataPacket.fresh_data 0 VIDEO_PACKET 42 [] [] false)) = false
  ∧ fst (DataPacket.belongsToTemporalLayer 0
           (DataPacket.mk 1 DataPacket.fresh_data 0 VIDEO_PACKET 42 [] [] false)) = false
  ∧ DataPacket.is_keyframe
      (DataPacket.mk 1 DataPacket.fresh_data 0 VIDEO_PACKET 42 [] [] false) = false.
Proof.
  apply (new_packet_in_no_layer (λ t : Z, t) 42 1 [] 0 VIDEO_PACKET 0
           (λ d, DataPacket.dataPacket3 (λ t : Z, t) 42 1 d 0)).
  - right. right. left. reflexivity.
  - reflexivity.
Defined.

(** ** Sequencing *)

Lemma lock_discipline_app (held : bool) (t1 t2 : list Event) :
  lock_discipline held t1 = true →
  guarded t2 = true →
  lock_discipline held (t1 ++ t2) = true.
Proof.
  revert held. induction t1 as [|e t1 IH]; intros held; cbn.
  - destruct held; [discriminate|]. intros _ H. exact H.
  - destruct e; rewrite ?andb_true_iff; intros [Hh Ht] H2;
      (split; [exact Hh|apply IH; assumption]).
Qed.

(** ** MediaSink: stream identifiers *)

(** X6. Setting then getting: after [setVideoSinkSSRC ssrc] (mutex free)
    [getVideoSinkSSRC] returns [ssrc] and [isVideoSinkSSRC] accepts
    [ssrc] and nothing else, while the audio identifier and the feedback
    source are as before; the same holds with audio and video exchanged. *)
Theorem sink_ssrc_set_then_get (s : MediaSink.MediaSink) (ssrc : uint32_t) :
  MediaSink.mutex s = false →
  (∃ s' t, MediaSink.setVideoSinkSSRC ssrc s = Some ((), s', t)
     ∧ returned (MediaSink.getVideoSinkSSRC s') = Some ssrc
     ∧ (∀ id, returned (MediaSink.isVideoSinkSSRC id s') = Some (bool_decide (id = ssrc)))
     ∧ returned (MediaSink.getAudioSinkSSRC s') = Some (MediaSink.audio_sink_ssrc_ s)
     ∧ returned (MediaSink.getFeedbackSource s') = Some (MediaSink.sink_fb_source_ s))
  ∧ (∃ s' t, MediaSink.setAudioSinkSSRC ssrc s = Some ((), s', t)
       ∧ returned (MediaSink.getAudioSinkSSRC s') = Some ssrc
       ∧ (∀ id, returned (MediaSink.isAudioSinkSSRC id s') = Some (bool_decide (id = ssrc)))
       ∧ returned (MediaSink.getVideoSinkSSRC s') = Some (MediaSink.video_sink_ssrc_ s)
       ∧ returned (MediaSink.getFeedbackSource s') = Some (MediaSink.sink_fb_source_ s)).
Proof.
  destruct s as [m a v fb]. cbn. intros ->.
  split; do 2 eexists; (split; [reflexivity|]); cbn; repeat split.
Qed.

Lemma sink_ssrc_set_then_get_witness :
  ∃ s' t, MediaSink.setVideoSinkSSRC 111 MediaSink.new = Some ((), s', t)
     ∧ returned (MediaSink.getVideoSinkSSRC s') = Some 111
     ∧ (∀ id, returned (MediaSink.isVideoSinkSSRC id s') = Some (bool_decide (id = 111)))
     ∧ returned (MediaSink.getAudioSinkSSRC s') = Some 0
     ∧ returned (MediaSink.getFeedbackSource s') = Some nullptr.
Proof.
  apply (proj1 (sink_ssrc_set_then_get MediaSink.new 111 eq_refl)).
Defined.

(** ** MediaSink and MediaSource: the feedback pointers *)

Lemma sink_call_frame (c : SinkCall) (s s' : MediaSink.MediaSink) v t :
  sink_call c s = Some (v, s', t) →
  MediaSink.sink_fb_source_ s' = MediaSink.sink_fb_source_ s
  ∧ MediaSink.mutex s' = MediaSink.mutex s.
Proof.
  destruct s as [m a vd fb].
  destruct m, c; cbn; try discriminate; intros [= <- <- <-]; split; reflexivity.
Qed.

Section SinkOverrides.
Context (impl : MediaSinkImpl MediaSink.MediaSink).

(** The overrides of the class do not store into [sink_fb_source_]. *)
Hypothesis audio_keeps : ∀ p s v s' t,
  deliverAudioData_ p s = Some (v, s', t) →
  MediaSink.sink_fb_source_ s' = MediaSink.sink_fb_source_ s.
Hypothesis video_keeps : ∀ p s v s' t,
  deliverVideoData_ p s = Some (v, s', t) →
  MediaSink.sink_fb_source_ s' = MediaSink.sink_fb_source_ s.
Hypothesis close_keeps : ∀ s v s' t,
  sink_close s = Some (v, s', t) →
  MediaSink.sink_fb_source_ s' = MediaSink.sink_fb_source_ s.

Lemma sink_public_call_frame (c : SinkPublicCall) (s s' : MediaSink.MediaSink) v t :
  sink_public_call c s = Some (v, s', t) →
  MediaSink.sink_fb_source_ s' = MediaSink.sink_fb_source_ s.
Proof.
  destruct c as [c|p|p|]; cbn [sink_public_call]; intros Hrun.
  - apply bind_inv in Hrun as (a & s1 & t1 & t2 & Hc & Hret & _).
    injection Hret as _ <- _. apply sink_call_frame in Hc as [Hfb _]. exact Hfb.
  - apply bind_inv in Hrun as (a & s1 & t1 & t2 & Hc & Hret & _).
    injection Hret as _ <- _. unfold deliverAudioData in Hc.
    rewrite bind_ret_r in Hc. apply (audio_keeps _ _ _ _ _ Hc).
  - apply bind_inv in Hrun as (a & s1 & t1 & t2 & Hc & Hret & _).
    injection Hret as _ <- _. unfold deliverVideoData in Hc.
    rewrite bind_ret_r in Hc. apply (video_keeps _ _ _ _ _ Hc).
  - apply (close_keeps _ _ _ _ Hrun).
Qed.

Lemma sink_public_calls_frame (cs : list SinkPublicCall) (s s' : MediaSink.MediaSink) v t :
  sink_public_calls cs s = Some (v, s', t) →
  MediaSink.sink_fb_source_ s' = MediaSink.sink_fb_source_ s.
Proof.
  revert s t. induction cs as [|c cs IH]; intros s t; cbn [sink_public_calls].
  - intros [= <- <- <-]. reflexivity.
  - intros Hrun. apply bind_inv in Hrun as (a & s1 & t1 & t2 & Hc & Hcs & _).
    apply sink_public_call_frame in Hc. apply IH in Hcs. congruence.
Qed.
End SinkOverrides.

Lemma source_call_frame (c : SourceCall) (s s' : MediaSource.MediaSource) v t :
  source_call c s = Some (v, s', t) →
  MediaSource.source_fb_sink_ s' = MediaSource.source_fb_sink_ s
  ∧ MediaSource.mutex s' = MediaSource.mutex s.
Proof.
  destruct s as [m a l vs au fb].
  destruct m, c, l as [|primary rest]; cbn; try discriminate;
    intros [= <- <- <-]; split; reflexivity.
Qed.

Lemma source_calls_frame (cs : list SourceCall) (s s' : MediaSource.MediaSource) v t :
  source_calls cs s = Some (v, s', t) →
  MediaSource.source_fb_sink_ s' = MediaSource.source_fb_sink_ s
  ∧ MediaSource.mutex s' = MediaSource.mutex s.
Proof.
  revert s t. induction cs as [|c cs IH]; intros s t; cbn [source_calls].
  - intros [= <- <- <-]. split; reflexivity.
  - intros Hrun. apply bind_inv in Hrun as (a & s1 & t1 & t2 & Hc & Hcs & _).
    apply source_call_frame in Hc as [Hfb Hm].
    apply IH in Hcs as [Hfb' Hm']. split; congruence.
Qed.

(** X8. No member function with a body in the header stores into
    [sink_fb_source_] or [source_fb_sink_]. So after any sequence of
    public calls on a [MediaSink] (the delivery functions and [close]
    included, provided the overrides of the class do not store into
    [sink_fb_source_]) [getFeedbackSource] returns the pointer as it was
    before the sequence, and after any sequence of the member functions
    the header defines for [MediaSource] (the pure virtual [sendPLI] and
    [close] apart) [getFeedbackSink] does; on objects that come from the
    constructors both return the null pointer. *)
Theorem feedback_pointers_constant :
  (∀ (impl : MediaSinkImpl MediaSink.MediaSink),
     (∀ p s v s' t, deliverAudioData_ p s = Some (v, s', t) →
                    MediaSink.sink_fb_source_ s' = MediaSink.sink_fb_source_ s) →
     (∀ p s v s' t, deliverVideoData_ p s = Some (v, s', t) →
                    MediaSink.sink_fb_source_ s' = MediaSink.sink_fb_source_ s) →
     (∀ s v s' t, sink_close s = Some (v, s', t) →
                  MediaSink.sink_fb_source_ s' = MediaSink.sink_fb_source_ s) →
     ∀ (cs : list SinkPublicCall) (s s' : MediaSink.MediaSink) r t,
       (sink_public_calls cs;; MediaSink.getFeedbackSource) s = Some (r, s', t) →
       r = MediaSink.sink_fb_source_ s
       ∧ (s = MediaSink.new → r = nullptr))
  ∧ (∀ (cs : list SourceCall) (s s' : MediaSource.MediaSource) r t,
       (source_calls cs;; MediaSource.getFeedbackSink) s = Some (r, s', t) →
       r = MediaSource.source_fb_sink_ s
       ∧ (s = MediaSource.new → r = nullptr)).
Proof.
  split.
  - intros impl Ha Hv Hc cs s s' r t Hrun.
    apply bind_inv in Hrun as ([] & s1 & t1 & t2 & Hcs & Hget & _).
    apply (sink_public_calls_frame impl Ha Hv Hc) in Hcs.
    assert (Hr : r = MediaSink.sink_fb_source_ s).
    { rewrite <- Hcs. destruct s1 as [m a v fb].
      destruct m; cbn in Hget; [discriminate|].
      injection Hget as <- _ _. reflexivity. }
    split; [exact Hr|]. intros ->. exact Hr.
  - intros cs s s' r t Hrun.
    apply bind_inv in Hrun as ([] & s1 & t1 & t2 & Hcs & Hget & _).
    apply source_calls_frame in Hcs as [Hfb _].
    assert (Hr : r = MediaSource.source_fb_sink_ s).
    { rewrite <- Hfb. destruct s1 as [m a l vs au fb].
      destruct m; cbn in Hget; [discriminate|].
      injection Hget as <- _ _. reflexivity. }
    split; [exact Hr|]. intros ->. exact Hr.
Qed.

Lemma feedback_pointers_constant_witness :
  (∃ r s' t,
     (@sink_public_calls
        (Build_MediaSinkImpl MediaSink.MediaSink (λ _, mret 0) (λ _, mret 1) (mret ()))
        [OwnCall (SetVideoSinkSSRC 5); DeliverVideoData (Some 2%N); Close;
         OwnCall (IsAudioSinkSSRC 4)];;
      MediaSink.getFeedbackSource) MediaSink.new = Some (r, s', t)
     ∧ r = nullptr)
  ∧ (∃ r s' t,
       (source_calls [SetVideoSink (Some 3%N); SetVideoSourceSSRC 9; IsAudioSourceSSRC 4];;
        MediaSource.getFeedbackSink) MediaSource.new = Some (r, s', t)
       ∧ r = nullptr).
Proof.
  split.
  - do 3 eexists. split; [reflexivity|].
    refine (proj2 (proj1 feedback_pointers_constant
              (Build_MediaSinkImpl MediaSink.MediaSink (λ _, mret 0) (λ _, mret 1) (mret ()))
              _ _ _
              [OwnCall (SetVideoSinkSSRC 5); DeliverVideoData (Some 2%N); Close;
               OwnCall (IsAudioSinkSSRC 4)]
              MediaSink.new _ _ _ eq_refl) eq_refl).
    + intros p s v s' t [= _ <- _]. reflexivity.
    + intros p s v s' t [= _ <- _]. reflexivity.
    + intros s v s' t [= _ <- _]. reflexivity.
  - do 3 eexists. split; [reflexivity|].
    exact (proj2 (proj2 feedback_pointers_constant
             [SetVideoSink (Some 3%N); SetVideoSourceSSRC 9; IsAudioSourceSSRC 4]
             MediaSource.new _ _ _ eq_refl) eq_refl).
Defined.

(** ** MediaSource: the list of video identifiers, set then read *)

Lemma isVideoSourceSSRC_run (s : MediaSource.MediaSource) (id : uint32_t) :
  ∃ b, MediaSource.isVideoSourceSSRC id s = Some (b, s, [Rd F_video_source_ssrc_list_])
       ∧ (b = true ↔ In id (MediaSource.video_source_ssrc_list_ s)).
Proof.
  eexists. split; [reflexivity|].
  cbn [get MediaSource.m_video_source_ssrc_list_].
  rewrite find_if_found. split.
  - intros (x & Hx & Hp). apply bool_decide_eq_true in Hp. congruence.
  - intros Hin. exists id. split; [assumption|].
    apply bool_decide_eq_true. reflexivity.
Qed.

(** X9. Setting then getting the list: after [setVideoSourceSSRCList l]
    (mutex free), [getVideoSourceSSRCList] returns [l],
    [getVideoSourceSSRC] returns the first element of [l] and is
    undefined when [l] is empty, [isVideoSourceSSRC] accepts exactly the
    elements of [l], and the audio identifier and the attached sinks are
    as before. *)
Theorem source_list_set_then_get (s : MediaSource.MediaSource) (l : list uint32_t) :
  MediaSource.mutex s = false →
  ∃ s' t, MediaSource.setVideoSourceSSRCList l s = Some ((), s', t)
    ∧ returned (MediaSource.getVideoSourceSSRCList s') = Some l
    ∧ returned (MediaSource.getVideoSourceSSRC s') = l !! 0%nat
    ∧ (∀ id, ∃ b, returned (MediaSource.isVideoSourceSSRC id s') = Some b
                  ∧ (b = true ↔ In id l))
    ∧ MediaSource.audio_source_ssrc_ s' = MediaSource.audio_source_ssrc_ s
    ∧ MediaSource.video_sink_ s' = MediaSource.video_sink_ s
    ∧ MediaSource.audio_sink_ s' = MediaSource.audio_sink_ s
    ∧ MediaSource.source_fb_sink_ s' = MediaSource.source_fb_sink_ s.
Proof.
  destruct s as [m a l0 vs au fb]. cbn. intros ->.
  do 2 eexists. split; [reflexivity|].
  split; [reflexivity|]. split; [destruct l; reflexivity|].
  split; [|cbn; auto].
  intros id.
  destruct (isVideoSourceSSRC_run (MediaSource.mk false a l vs au fb) id) as (b & Hrun & Hb).
  exists b. cbn [set MediaSource.m_video_source_ssrc_list_ MediaSource.monitor
                 set_monitor_mutex_ MediaSource.audio_source_ssrc_
                 MediaSource.video_source_ssrc_list_ MediaSource.video_sink_
                 MediaSource.audio_sink_ MediaSource.source_fb_sink_ MediaSource.mutex].
  rewrite Hrun. split; [reflexivity|exact Hb].
Qed.

Lemma source_list_set_then_get_witness :
  ∃ s' t, MediaSource.setVideoSourceSSRCList [111; 222] MediaSource.new = Some ((), s', t)
    ∧ returned (MediaSource.getVideoSourceSSRCList s') = Some [111; 222]
    ∧ returned (MediaSource.getVideoSourceSSRC s') = [111; 222] !! 0%nat
    ∧ (∀ id, ∃ b, returned (MediaSource.isVideoSourceSSRC id s') = Some b
                  ∧ (b = true ↔ In id [111; 222]))
    ∧ MediaSource.audio_source_ssrc_ s' = 0
    ∧ MediaSource.video_sink_ s' = nullptr
    ∧ MediaSource.audio_sink_ s' = nullptr
    ∧ MediaSource.source_fb_sink_ s' = nullptr.
Proof.
  apply (source_list_set_then_get MediaSource.new [111; 222] eq_refl).
Defined.

(** X10. On a [MediaSource] whose list is empty, [getVideoSourceSSRC]
    and [setVideoSourceSSRC] are undefined (they index slot 0 of an empty
    vector), whatever the state of the mutex, while [isVideoSourceSSRC]
    still returns, false for every identifier, and
    [getVideoSourceSSRCList] returns the empty list. *)
Theorem empty_list_behaviour (s : MediaSource.MediaSource) :
  MediaSource.video_source_ssrc_list_ s = [] →
  MediaSource.getVideoSourceSSRC s = None
  ∧ (∀ ssrc, MediaSource.setVideoSourceSSRC ssrc s = None)
  ∧ (∀ id, returned (MediaSource.isVideoSourceSSRC id s) = Some false)
  ∧ (MediaSource.mutex s = false →
     returned (MediaSource.getVideoSourceSSRCList s) = Some []).
Proof.
  destruct s as [m a l vs au fb]. cbn. intros ->.
  destruct m; repeat split; try discriminate.
Qed.

Lemma empty_list_behaviour_witness :
  ∃ s' t, MediaSource.setVideoSourceSSRCList [] MediaSource.new = Some ((), s', t)
    ∧ MediaSource.getVideoSourceSSRC s' = None
    ∧ (∀ ssrc, MediaSource.setVideoSourceSSRC ssrc s' = None)
    ∧ (∀ id, returned (MediaSource.isVideoSourceSSRC id s') = Some false)
    ∧ (MediaSource.mutex s' = false →
       returned (MediaSource.getVideoSourceSSRCList s') = Some []).
Proof.
  do 2 eexists. split; [reflexivity|].
  apply empty_list_behaviour. reflexivity.
Defined.

(** X11. After [setVideoSourceSSRC ssrc] on a list [primary :: rest]
    (mutex free), [getVideoSourceSSRC] returns [ssrc],
    [getVideoSourceSSRCList] returns [ssrc :: rest], and
    [isVideoSourceSSRC] accepts [ssrc] and the elements of [rest]: the
    former primary identifier is accepted only if it also occurs among
    the other variants. *)
Theorem setVideoSourceSSRC_then_read
    (s : MediaSource.MediaSource) (ssrc primary : uint32_t) (rest : list uint32_t) :
  MediaSource.mutex s = false →
  MediaSource.video_source_ssrc_list_ s = primary :: rest →
  ∃ s' t, MediaSource.setVideoSourceSSRC ssrc s = Some ((), s', t)
    ∧ returned (MediaSource.getVideoSourceSSRC s') = Some ssrc
    ∧ returned (MediaSource.getVideoSourceSSRCList s') = Some (ssrc :: rest)
    ∧ (∀ id, ∃ b, returned (MediaSource.isVideoSourceSSRC id s') = Some b
                  ∧ (b = true ↔ id = ssrc ∨ In id rest)).
Proof.
  destruct s as [m a l vs au fb]. cbn. intros -> ->.
  do 2 eexists. split; [reflexivity|].
  split; [reflexivity|]. split; [reflexivity|].
  intros id.
  destruct (isVideoSourceSSRC_run (MediaSource.mk false a (ssrc :: rest) vs au fb) id)
    as (b & Hrun & Hb).
  exists b. split.
  - cbn in Hrun |- *. rewrite Hrun. reflexivity.
  - rewrite Hb. cbn. split; intros [H|H]; auto.
Qed.

Lemma setVideoSourceSSRC_then_read_witness :
  ∃ s' t, MediaSource.setVideoSourceSSRC 333
            (MediaSource.mk false 7 [111; 222] None None None) = Some ((), s', t)
    ∧ returned (MediaSource.getVideoSourceSSRC s') = Some 333
    ∧ returned (MediaSource.getVideoSourceSSRCList s') = Some [333; 222]
    ∧ (∀ id, ∃ b, returned (MediaSource.isVideoSourceSSRC id s') = Some b
                  ∧ (b = true ↔ id = 333 ∨ In id [222])).
Proof.
  apply (setVideoSourceSSRC_then_read
           (MediaSource.mk false 7 [111; 222] None None None) 333 111 [222]
           eq_refl eq_refl).
Defined.

(** ** MediaSource: the audio identifier and the attached sinks *)

(** X12. After [setAudioSourceSSRC ssrc] (mutex free),
    [getAudioSourceSSRC] returns [ssrc], [isAudioSourceSSRC] accepts
    [ssrc] and nothing else, and the list of video identifiers and the
    attached sinks are as before. *)
Theorem audio_source_ssrc_set_then_get (s : MediaSource.MediaSource) (ssrc : uint32_t) :
  MediaSource.mutex s = false →
  ∃ s' t, MediaSource.setAudioSourceSSRC ssrc s = Some ((), s', t)
    ∧ returned (MediaSource.getAudioSourceSSRC s') = Some ssrc
    ∧ (∀ id, returned (MediaSource.isAudioSourceSSRC id s') = Some (bool_decide (ssrc = id)))
    ∧ MediaSource.video_source_ssrc_list_ s' = MediaSource.video_source_ssrc_list_ s
    ∧ MediaSource.video_sink_ s' = MediaSource.video_sink_ s
    ∧ MediaSource.audio_sink_ s' = MediaSource.audio_sink_ s
    ∧ MediaSource.source_fb_sink_ s' = MediaSource.source_fb_sink_ s.
Proof.
  destruct s as [m a l vs au fb]. cbn. intros ->.
  do 2 eexists. split; [reflexivity|]. cbn. repeat split.
Qed.

Lemma audio_source_ssrc_set_then_get_witness :
  ∃ s' t, MediaSource.setAudioSourceSSRC 555 MediaSource.new = Some ((), s', t)
    ∧ returned (MediaSource.getAudioSourceSSRC s') = Some 555
    ∧ (∀ id, returned (MediaSource.isAudioSourceSSRC id s') = Some (bool_decide (555 = id)))
    ∧ MediaSource.video_source_ssrc_list_ s' = [0]
    ∧ MediaSource.video_sink_ s' = nullptr
    ∧ MediaSource.audio_sink_ s' = nullptr
    ∧ MediaSource.source_fb_sink_ s' = nullptr.
Proof.
  apply (audio_source_ssrc_set_then_get MediaSource.new 555 eq_refl).
Defined.

(** X13. Attaching replaces: [setVideoSink q] after [setVideoSink p]
    leaves the object as [setVideoSink q] alone does, and likewise for
    [setAudioSink]; a null pointer detaches. The two attachments are
    independent: in either order [setAudioSink a] and [setVideoSink v]
    lead to the same object, with [audio_sink_] = [a], [video_sink_] =
    [v] and the identifiers and the feedback sink as before. *)
Theorem attach_replaces (s : MediaSource.MediaSource) (p q a v : pointer) :
  MediaSource.mutex s = false →
  (∃ s' t1 t2,
      (MediaSource.setVideoSink p;; MediaSource.setVideoSink q) s = Some ((), s', t1)
      ∧ MediaSource.setVideoSink q s = Some ((), s', t2)
      ∧ MediaSource.video_sink_ s' = q)
  ∧ (∃ s' t1 t2,
      (MediaSource.setAudioSink p;; MediaSource.setAudioSink q) s = Some ((), s', t1)
      ∧ MediaSource.setAudioSink q s = Some ((), s', t2)
      ∧ MediaSource.audio_sink_ s' = q)
  ∧ (∃ s' t1 t2,
      (MediaSource.setAudioSink a;; MediaSource.setVideoSink v) s = Some ((), s', t1)
      ∧ (MediaSource.setVideoSink v;; MediaSource.setAudioSink a) s = Some ((), s', t2)
      ∧ MediaSource.audio_sink_ s' = a
      ∧ MediaSource.video_sink_ s' = v
      ∧ MediaSource.audio_source_ssrc_ s' = MediaSource.audio_source_ssrc_ s
      ∧ MediaSource.video_source_ssrc_list_ s' = MediaSource.video_source_ssrc_list_ s
      ∧ MediaSource.source_fb_sink_ s' = MediaSource.source_fb_sink_ s).
Proof.
  destruct s as [m au l vs aus fb]. cbn. intros ->.
  split; [|split]; do 3 eexists; (split; [reflexivity|]); cbn; repeat split.
Qed.

Lemma attach_replaces_witness :
  ∃ s' t1 t2,
    (MediaSource.setVideoSink (Some 1%N);; MediaSource.setVideoSink nullptr) MediaSource.new
    = Some ((), s', t1)
    ∧ MediaSource.setVideoSink nullptr MediaSource.new = Some ((), s', t2)
    ∧ MediaSource.video_sink_ s' = nullptr.
Proof.
  apply (proj1 (attach_replaces MediaSource.new (Some 1%N) None None None eq_refl)).
Defined.

(** ** Readers *)

(** X14. The [get...] and [is...] member functions of [MediaSource] and
    [MediaSink] change nothing: whenever such a call returns, the object
    is exactly as before the call, mutex included. *)
Theorem readers_change_nothing :
  (∀ (c : SourceCall) (s s' : MediaSource.MediaSource) v t,
     source_reader c = true →
     source_call c s = Some (v, s', t) →
     s' = s)
  ∧ (∀ (c : SinkCall) (s s' : MediaSink.MediaSink) v t,
       sink_reader c = true →
       sink_call c s = Some (v, s', t) →
       s' = s).
Proof.
  split.
  - intros c [m a l vs au fb] s' v t Hc.
    destruct m, c, l as [|primary rest]; try discriminate Hc; cbn;
      try discriminate; intros [= <- <- <-]; reflexivity.
  - intros c [m a vd fb] s' v t Hc.
    destruct m, c; try discriminate Hc; cbn;
      try discriminate; intros [= <- <- <-]; reflexivity.
Qed.

Lemma readers_change_nothing_witness :
  ∃ v s' t, source_call GetVideoSourceSSRC MediaSource.new = Some (v, s', t)
            ∧ s' = MediaSource.new.
Proof.
  do 3 eexists. split; [reflexivity|].
  exact (proj1 readers_change_nothing GetVideoSourceSSRC MediaSource.new
           _ _ _ eq_refl eq_refl).
Defined.

(** ** The mutex is not recursive *)

(** X15. Called on an object whose mutex is held, every [get...] and
    [set...] member function of [MediaSource] and [MediaSink] fails to
    return (the scoped lock waits for the mutex, which is not recursive),
    whereas the [is...] tests, which take no lock, return and leave the
    object as it is. *)
Theorem held_mutex_blocks_accessors :
  (∀ (c : SourceCall) (s : MediaSource.MediaSource),
     MediaSource.mutex s = true →
     if source_accessor c then source_call c s = None
     else ∃ v t, source_call c s = Some (v, s, t))
  ∧ (∀ (c : SinkCall) (s : MediaSink.MediaSink),
       MediaSink.mutex s = true →
       if sink_accessor c then sink_call c s = None
       else ∃ v t, sink_call c s = Some (v, s, t)).
Proof.
  split.
  - intros c [m a l vs au fb]. cbn. intros ->.
    destruct c; cbn; try reflexivity; do 2 eexists; reflexivity.
  - intros c [m a vd fb]. cbn. intros ->.
    destruct c; cbn; try reflexivity; do 2 eexists; reflexivity.
Qed.

Lemma held_mutex_blocks_accessors_witness :
  source_call GetAudioSourceSSRC (MediaSource.mk true 7 [111] None None None) = None
  ∧ ∃ v t, sink_call (IsVideoSinkSSRC 5) (MediaSink.mk true 1 5 None)
           = Some (v, MediaSink.mk true 1 5 None, t).
Proof.
  split.
  - apply (proj1 held_mutex_blocks_accessors GetAudioSourceSSRC
             (MediaSource.mk true 7 [111] None None None) eq_refl).
  - apply (proj2 held_mutex_blocks_accessors (IsVideoSinkSSRC 5)
             (MediaSink.mk true 1 5 None) eq_refl).
Defined.

(** ** Sequences of calls *)

Lemma source_call_step (c : SourceCall) (s : MediaSource.MediaSource) :
  has_primary_slot s →
  MediaSource.mutex s = false →
  (∀ l, c = SetVideoSourceSSRCList l → l ≠ []) →
  ∃ v s' t, source_call c s = Some (v, s', t)
            ∧ has_primary_slot s'
            ∧ MediaSource.mutex s' = false
            ∧ (source_accessor c = true → guarded t = true).
Proof.
  unfold has_primary_slot.
  destruct s as [m a l vs au fb]. cbn. intros Hl -> Hc.
  destruct l as [|primary rest]; [congruence|].
  destruct c;
    try (do 3 eexists; split; [reflexivity|]; cbn;
         split; [discriminate|]; split; [reflexivity|]; intros H; (reflexivity || discriminate H)).
  do 3 eexists. split; [reflexivity|]. cbn.
  split; [apply Hc; reflexivity|]. split; reflexivity.
Qed.

(** X16. Any sequence of the header's calls on a [MediaSource], run on
    an object that has its slot 0 and a free mutex, runs to its end,
    provided no [setVideoSourceSSRCList] in it is given the empty list;
    the object then still has its slot 0 and a free mutex, and if the
    sequence consists of [get...] and [set...] calls only, every access
    of the whole run was made holding the mutex. *)
Theorem source_calls_run (cs : list SourceCall) (s : MediaSource.MediaSource) :
  has_primary_slot s →
  MediaSource.mutex s = false →
  (∀ l, In (SetVideoSourceSSRCList l) cs → l ≠ []) →
  ∃ s' t, source_calls cs s = Some ((), s', t)
          ∧ has_primary_slot s'
          ∧ MediaSource.mutex s' = false
          ∧ (forallb source_accessor cs = true → guarded t = true).
Proof.
  revert s. induction cs as [|c cs IH]; intros s Hinv Hfree Hlists.
  - exists s, []. cbn. auto.
  - destruct (source_call_step c s Hinv Hfree) as (v & s1 & t1 & Hc & Hinv1 & Hfree1 & Hg1).
    { intros l ->. apply Hlists. left. reflexivity. }
    destruct (IH s1 Hinv1 Hfree1) as (s2 & t2 & Hcs & Hinv2 & Hfree2 & Hg2).
    { intros l Hl. apply Hlists. right. exact Hl. }
    exists s2, (t1 ++ t2). split; [|split; [exact Hinv2|split; [exact Hfree2|]]].
    + cbn [source_calls]. rewrite (bind_run _ _ _ _ _ _ Hc). rewrite Hcs. reflexivity.
    + cbn [forallb]. rewrite andb_true_iff. intros [Hc1 Hc2].
      apply lock_discipline_app; [apply Hg1, Hc1|apply Hg2, Hc2].
Qed.

Lemma source_calls_run_witness :
  ∃ s' t,
    source_calls [SetVideoSourceSSRCList [5; 6]; SetVideoSourceSSRC 9; GetVideoSourceSSRC]
      MediaSource.new = Some ((), s', t)
    ∧ has_primary_slot s'
    ∧ MediaSource.mutex s' = false
    ∧ (forallb source_accessor
         [SetVideoSourceSSRCList [5; 6]; SetVideoSourceSSRC 9; GetVideoSourceSSRC] = true →
       guarded t = true).
Proof.
  apply (source_calls_run
           [SetVideoSourceSSRCList [5; 6]; SetVideoSourceSSRC 9; GetVideoSourceSSRC]
           MediaSource.new).
  - unfold has_primary_slot. simpl. discriminate.
  - reflexivity.
  - simpl. intros l [H|[H|[H|[]]]]; try discriminate H.
    injection H as <-. discriminate.
Defined.

(** ** Fresh objects and identifier 0 *)

(** X18. Before any identifier is set, a [MediaSource] and a
    [MediaSink] fresh from their constructors take identifier 0 for
    theirs, audio and video alike, and no other identifier. *)
Theorem fresh_objects_match_zero (id : uint32_t) :
  returned (MediaSource.isVideoSourceSSRC id MediaSource.new) = Some (bool_decide (id = 0))
  ∧ returned (MediaSource.isAudioSourceSSRC id MediaSource.new) = Some (bool_decide (id = 0))
  ∧ returned (MediaSink.isVideoSinkSSRC id MediaSink.new) = Some (bool_decide (id = 0))
  ∧ returned (MediaSink.isAudioSinkSSRC id MediaSink.new) = Some (bool_decide (id = 0)).
Proof.
  unfold MediaSource.isVideoSourceSSRC, MediaSource.isAudioSourceSSRC,
    MediaSink.isVideoSinkSSRC, MediaSink.isAudioSinkSSRC.
  unfold mbind, M_bind, mret, M_ret, read, returned, MediaSource.new, MediaSink.new.
  cbn -[bool_decide].
  repeat split; repeat case_bool_decide; (reflexivity || congruence).
Qed.

(** ** Sequences of calls on a sink *)

Lemma sink_call_step (c : SinkCall) (s : MediaSink.MediaSink) :
  MediaSink.mutex s = false →
  ∃ v s' t, sink_call c s = Some (v, s', t)
            ∧ MediaSink.mutex s' = false
            ∧ (sink_accessor c = true → guarded t = true).
Proof.
  destruct s as [m a v fb]. cbn. intros ->.
  destruct c; do 3 eexists; (split; [reflexivity|]); cbn;
    (split; [reflexivity|]); intros H; (reflexivity || discriminate H).
Qed.

(** X19. The member functions the header defines for [MediaSink] have
    no precondition beyond a free mutex. Provided the overrides of the
    class ([deliverAudioData_], [deliverVideoData_], [close]) return and
    leave the mutex free when called with the mutex free, any sequence of
    public calls run on a sink whose mutex is free runs to its end and
    leaves the mutex free; and if the sequence consists of [get...] and
    [set...] calls only, every access of the whole run was made holding
    the mutex. *)
Theorem sink_calls_run (impl : MediaSinkImpl MediaSink.MediaSink)
    (cs : list SinkPublicCall) (s : MediaSink.MediaSink) :
  (∀ p s0, MediaSink.mutex s0 = false →
           ∃ v s' t, deliverAudioData_ p s0 = Some (v, s', t) ∧ MediaSink.mutex s' = false) →
  (∀ p s0, MediaSink.mutex s0 = false →
           ∃ v s' t, deliverVideoData_ p s0 = Some (v, s', t) ∧ MediaSink.mutex s' = false) →
  (∀ s0, MediaSink.mutex s0 = false →
         ∃ v s' t, sink_close s0 = Some (v, s', t) ∧ MediaSink.mutex s' = false) →
  MediaSink.mutex s = false →
  ∃ s' t, sink_public_calls cs s = Some ((), s', t)
          ∧ MediaSink.mutex s' = false
          ∧ (forallb public_accessor cs = true → guarded t = true).
Proof.
  intros Ha Hv Hcl. revert s. induction cs as [|c cs IH]; intros s Hfree.
  - exists s, []. cbn. auto.
  - assert (Hstep : ∃ s1 t1, sink_public_call c s = Some ((), s1, t1)
                             ∧ MediaSink.mutex s1 = false
                             ∧ (public_accessor c = true → guarded t1 = true)).
    { destruct c as [c|p|p|]; cbn [sink_public_call public_accessor].
      - destruct (sink_call_step c s Hfree) as (v & s1 & t1 & Hc & Hfree1 & Hg1).
        exists s1, (t1 ++ []). rewrite (bind_run _ _ _ _ _ _ Hc).
        split; [reflexivity|]. rewrite app_nil_r. auto.
      - destruct (Ha p s Hfree) as (v & s1 & t1 & Hc & Hfree1).
        exists s1, (t1 ++ []). unfold deliverAudioData.
        assert (Hw : (r ← deliverAudioData_ p; mret r) s = Some (v, s1, t1))
          by (rewrite bind_ret_r; exact Hc).
        rewrite (bind_run _ _ _ _ _ _ Hw).
        split; [reflexivity|]. split; [exact Hfree1|discriminate].
      - destruct (Hv p s Hfree) as (v & s1 & t1 & Hc & Hfree1).
        exists s1, (t1 ++ []). unfold deliverVideoData.
        assert (Hw : (r ← deliverVideoData_ p; mret r) s = Some (v, s1, t1))
          by (rewrite bind_ret_r; exact Hc).
        rewrite (bind_run _ _ _ _ _ _ Hw).
        split; [reflexivity|]. split; [exact Hfree1|discriminate].
      - destruct (Hcl s Hfree) as ([] & s1 & t1 & Hc & Hfree1).
        exists s1, t1. split; [exact Hc|]. split; [exact Hfree1|discriminate]. }
    destruct Hstep as (s1 & t1 & Hc & Hfree1 & Hg1).
    destruct (IH s1 Hfree1) as (s2 & t2 & Hcs & Hfree2 & Hg2).
    exists s2, (t1 ++ t2). split; [|split; [exact Hfree2|]].
    + cbn [sink_public_calls]. rewrite (bind_run _ _ _ _ _ _ Hc). rewrite Hcs. reflexivity.
    + cbn [forallb]. rewrite andb_true_iff. intros [Hc1 Hc2].
      apply lock_discipline_app; [apply Hg1, Hc1|apply Hg2, Hc2].
Qed.

Lemma sink_calls_run_witness :
  ∃ s' t,
    @sink_public_calls
      (Build_MediaSinkImpl MediaSink.MediaSink (λ _, mret 0) (λ _, mret 1) (mret ()))
      [OwnCall (SetVideoSinkSSRC 111); DeliverAudioData (Some 2%N);
       OwnCall GetFeedbackSource; Close] MediaSink.new
    = Some ((), s', t)
    ∧ MediaSink.mutex s' = false
    ∧ (forallb public_accessor
         [OwnCall (SetVideoSinkSSRC 111); DeliverAudioData (Some 2%N);
          OwnCall GetFeedbackSource; Close] = true →
       guarded t = true).
Proof.
  apply (sink_calls_run
           (Build_MediaSinkImpl MediaSink.MediaSink (λ _, mret 0) (λ _, mret 1) (mret ()))
           [OwnCall (SetVideoSinkSSRC 111); DeliverAudioData (Some 2%N);
            OwnCall GetFeedbackSource; Close] MediaSink.new).
  - intros p s0 Hs0. exists 0, s0, []. split; [reflexivity|exact Hs0].
  - intros p s0 Hs0. exists 1, s0, []. split; [reflexivity|exact Hs0].
  - intros s0 Hs0. exists (), s0, []. split; [reflexivity|exact Hs0].
  - reflexivity.
Defined.
